(** * Trade analysis engine: position reconstruction, statistics, bias rules

    A shallow embedding of [analyzeTrades] (the engine inside the [App]
    component) and the properties of it that the specification states.

    Numbers.  The engine computes on JavaScript numbers.  They are modelled
    here as exact rationals extended with the two infinities and NaN: every
    operation follows the IEEE-754 case table for its special values
    (NaN propagation, [Infinity - Infinity], [0 * Infinity], [x / 0],
    [0 / 0], comparisons with NaN being false), while finite results are
    exact, i.e. rounding and overflow of binary64 are not modelled.  Zero is
    unsigned: every divisor of the engine is an array length, an average of
    amounts that are positive or absolute values, or a running position that
    starts at [+0] and only changes by additions to it or by subtractions
    from a positive value; none of them is ever a negative zero, so a zero
    divisor always stands for [+0].

    Where a statement is about the exact value of a product or a quotient,
    the statistics are given a second time on binary64 numbers (module
    [B64]), and the statement is made there. *)

From Stdlib Require Import ZArith QArith Qcanon Qround Qabs Lqa Lia.
From Stdlib Require Import List String Ascii Bool Permutation.
From Stdlib Require PrimFloat Uint63.
Import ListNotations.

Local Open Scope string_scope.
Local Open Scope list_scope.

(** ** JavaScript numbers *)

Module Num.

Inductive num : Type :=
| NaN : num
| Inf (positive : bool) : num
| Fin (q : Qc) : num.

Definition PosInf : num := Inf true.
Definition NegInf : num := Inf false.

Definition of_Z (z : Z) : num := Fin (Q2Qc (inject_Z z)).
Definition of_nat (n : nat) : num := of_Z (Z.of_nat n).

(** The literal [1.5]. *)
Definition one_and_half : num := Fin (Q2Qc (3 # 2)).

Definition is_zero (q : Qc) : bool := Qc_eq_bool q (Q2Qc 0).
Definition is_neg (q : Qc) : bool :=
  match (q ?= Q2Qc 0)%Qc with Lt => true | _ => false end.

Definition neg (x : num) : num :=
  match x with
  | NaN => NaN
  | Inf s => Inf (negb s)
  | Fin q => Fin (- q)%Qc
  end.

Definition add (x y : num) : num :=
  match x, y with
  | NaN, _ | _, NaN => NaN
  | Inf s, Inf s' => if Bool.eqb s s' then Inf s else NaN
  | Inf s, Fin _ | Fin _, Inf s => Inf s
  | Fin a, Fin b => Fin (a + b)%Qc
  end.

Definition sub (x y : num) : num := add x (neg y).

(** An infinity times a finite number: NaN for zero, else the sign rule. *)
Definition scale_inf (s : bool) (q : Qc) : num :=
  if is_zero q then NaN else Inf (if is_neg q then negb s else s).

Definition mul (x y : num) : num :=
  match x, y with
  | NaN, _ | _, NaN => NaN
  | Inf s, Inf s' => Inf (Bool.eqb s s')
  | Inf s, Fin q | Fin q, Inf s => scale_inf s q
  | Fin a, Fin b => Fin (a * b)%Qc
  end.

Definition div (x y : num) : num :=
  match x, y with
  | NaN, _ | _, NaN => NaN
  | Inf _, Inf _ => NaN
  | Inf s, Fin q => Inf (if is_neg q then negb s else s)
  | Fin _, Inf _ => Fin (Q2Qc 0)
  | Fin a, Fin b =>
      if is_zero b then
        (if is_zero a then NaN else Inf (negb (is_neg a)))
      else Fin (a / b)%Qc
  end.

(** [x < y] of JavaScript: false as soon as an operand is NaN. *)
Definition ltb (x y : num) : bool :=
  match x, y with
  | NaN, _ | _, NaN => false
  | Inf s, Inf s' => negb s && s'
  | Inf s, Fin _ => negb s
  | Fin _, Inf s => s
  | Fin a, Fin b => match (a ?= b)%Qc with Lt => true | _ => false end
  end.

Definition gtb (x y : num) : bool := ltb y x.

(** [x <= y] of JavaScript. *)
Definition leb (x y : num) : bool :=
  match x, y with
  | NaN, _ | _, NaN => false
  | _, _ => negb (ltb y x)
  end.

Definition geb (x y : num) : bool := leb y x.

Definition is_finite (x : num) : bool :=
  match x with Fin _ => true | _ => false end.

(** [Math.min(x, y)]. *)
Definition min (x y : num) : num :=
  match x, y with
  | NaN, _ | _, NaN => NaN
  | _, _ => if ltb y x then y else x
  end.

(** [Math.max(x, y)]; [Math.max(...l)] folds it from [-Infinity]. *)
Definition max (x y : num) : num :=
  match x, y with
  | NaN, _ | _, NaN => NaN
  | _, _ => if ltb x y then y else x
  end.

(** The value of [Math.max(...l)] when the call is made; the number of
    arguments a host accepts is accounted for where the call is
    ([analyzeTradesOn]). *)
Definition max_list (l : list num) : num := fold_left max l NegInf.

(** [Math.abs(x)]. *)
Definition abs (x : num) : num :=
  match x with
  | NaN => NaN
  | Inf _ => PosInf
  | Fin q => Fin (if is_neg q then (- q)%Qc else q)
  end.

(** [Math.floor(x)]. *)
Definition floor (x : num) : num :=
  match x with
  | Fin q => of_Z (Qfloor q)
  | _ => x
  end.

(** [parseFloat(x.toFixed(1))].  [toFixed] prints a non-finite number by
    name and a magnitude of at least [10^21] in full precision, which
    [parseFloat] reads back unchanged; below that it keeps the integer [n]
    with [n / 10] closest to the magnitude, the larger one on a tie, and
    puts the sign back. *)
Definition toFixed1 (x : num) : num :=
  match x with
  | Fin q =>
      let m : Q := Qabs q in
      if Qle_bool (inject_Z (10 ^ 21)) m then x
      else
        let n := Qfloor (m * 10 + (1 # 2)) in
        Fin (Q2Qc ((if is_neg q then (- n)%Z else n) # 10))
  | _ => x
  end.

(** Equality test used to check concrete results. *)
Definition eqb (x y : num) : bool :=
  match x, y with
  | NaN, NaN => true
  | Inf s, Inf s' => Bool.eqb s s'
  | Fin a, Fin b => Qc_eq_bool a b
  | _, _ => false
  end.

End Num.

Import Num.

Declare Scope num_scope.
Delimit Scope num_scope with num.
Bind Scope num_scope with num.
Notation "x <? y" := (ltb x y) : num_scope.
Notation "x >? y" := (gtb x y) : num_scope.
Notation "x <=? y" := (leb x y) : num_scope.
Notation "x >=? y" := (geb x y) : num_scope.

(** Numeric literals of the source. *)
Definition n0 : num := of_Z 0.
Definition n3 : num := of_Z 3.
Definition n8 : num := of_Z 8.
Definition n10 : num := of_Z 10.
Definition n25 : num := of_Z 25.
Definition n40 : num := of_Z 40.
Definition n50 : num := of_Z 50.
Definition n100 : num := of_Z 100.

(** ** Strings *)

(** [s.toLowerCase()] on the ASCII letters.  The engine only compares the
    result with ["buy"] and ["sell"], and no character outside ASCII has
    one of their letters as its lower case, so the other characters are
    left as they are. *)
Definition lower_ascii (c : ascii) : ascii :=
  let n := nat_of_ascii c in
  if (65 <=? n)%nat && (n <=? 90)%nat then ascii_of_nat (n + 32) else c.

Fixpoint toLowerCase (s : string) : string :=
  match s with
  | EmptyString => EmptyString
  | String c r => String (lower_ascii c) (toLowerCase r)
  end.

(** ** Plain JavaScript objects used as maps

    [symbolTrades] and [symbolFrequency] are object literals [{}]: their
    own properties are kept here in insertion order, a read of a missing
    key falls through to [Object.prototype], and [Object.values] lists the
    array-index keys first, in ascending numeric order, and then the other
    keys in insertion order. *)

Module JsObject.

Definition obj (A : Type) : Type := list (string * A).

Definition empty {A : Type} : obj A := [].

(** The property names every object inherits from [Object.prototype]; each
    of them reads as a function (or, for [__proto__], as the prototype
    object), which is truthy and has no [push]. *)
Definition inherited_names : list string :=
  [ "constructor"; "hasOwnProperty"; "isPrototypeOf"; "propertyIsEnumerable";
    "toLocaleString"; "toString"; "valueOf"; "__proto__";
    "__defineGetter__"; "__defineSetter__";
    "__lookupGetter__"; "__lookupSetter__" ].

Definition is_inherited (k : string) : bool :=
  existsb (String.eqb k) inherited_names.

Inductive lookup (A : Type) : Type :=
| Own (a : A)
| Inherited
| Undefined.
Arguments Own {A} a.
Arguments Inherited {A}.
Arguments Undefined {A}.

Fixpoint get_own {A : Type} (o : obj A) (k : string) : option A :=
  match o with
  | [] => None
  | (k', v) :: r => if String.eqb k k' then Some v else get_own r k
  end.

(** [o[k]] *)
Definition get {A : Type} (o : obj A) (k : string) : lookup A :=
  match get_own o k with
  | Some v => Own v
  | None => if is_inherited k then Inherited else Undefined
  end.

(** [o[k] = v]: an existing own property keeps its place, a new one goes
    last. *)
Fixpoint set {A : Type} (o : obj A) (k : string) (v : A) : obj A :=
  match o with
  | [] => [(k, v)]
  | (k', v') :: r =>
      if String.eqb k k' then (k', v) :: r else (k', v') :: set r k v
  end.

Definition digit (c : ascii) : option N :=
  let n := N_of_ascii c in
  if (48 <=? n)%N && (n <=? 57)%N then Some (n - 48)%N else None.

Fixpoint digits (s : string) (acc : N) : option N :=
  match s with
  | EmptyString => Some acc
  | String c r =>
      match digit c with
      | Some d => digits r (acc * 10 + d)%N
      | None => None
      end
  end.

(** A key is an array index when it is the canonical decimal form of an
    integer between [0] and [2^32 - 2]. *)
Definition array_index (k : string) : option N :=
  match k with
  | EmptyString => None
  | String c r =>
      if Ascii.eqb c "0"%char && negb (String.eqb r EmptyString) then None
      else
        match digits k 0 with
        | Some n => if (n <=? 4294967294)%N then Some n else None
        | None => None
        end
  end.

Fixpoint insert_index {A : Type} (n : N) (v : A) (l : list (N * A))
  : list (N * A) :=
  match l with
  | [] => [(n, v)]
  | (m, w) :: r =>
      if (n <=? m)%N then (n, v) :: l else (m, w) :: insert_index n v r
  end.

Definition index_props {A : Type} (o : obj A) : list (N * A) :=
  fold_right
    (fun kv acc =>
       match array_index (fst kv) with
       | Some n => insert_index n (snd kv) acc
       | None => acc
       end) [] o.

Definition named_props {A : Type} (o : obj A) : obj A :=
  filter
    (fun kv => match array_index (fst kv) with None => true | _ => false end)
    o.

(** [Object.values(o)] *)
Definition values {A : Type} (o : obj A) : list A :=
  map snd (index_props o) ++ map snd (named_props o).

(** [Object.keys(o).length] *)
Definition key_count {A : Type} (o : obj A) : nat := List.length o.

End JsObject.

(** ** Arrays *)

(** Truncation towards zero, as [ToIntegerOrInfinity] does. *)
Definition trunc (q : Qc) : Z := Z.quot (Qnum q) (Zpos (Qden q)).

(** [l.slice(start)]: NaN counts as [0]; a negative start counts from the
    end; the result is clamped to the array. *)
Definition slice_from {A : Type} (start : num) (l : list A) : list A :=
  let len := Z.of_nat (List.length l) in
  let k :=
    match start with
    | NaN => 0%Z
    | Inf true => len
    | Inf false => 0%Z
    | Fin q =>
        let r := trunc q in
        if (r <? 0)%Z then Z.max (len + r) 0 else Z.min r len
    end in
  skipn (Z.to_nat k) l.

(** [l.reduce((a, b) => a + b, 0)] *)
Definition sum (l : list num) : num := fold_left add l n0.

(** ** Data model *)

Record Trade : Type := mkTrade {
  date : string;
  symbol : string;
  action : string;
  quantity : num;
  price : num
}.

Record TradeStats : Type := mkStats {
  totalTrades : nat;
  winRate : num;
  avgProfit : num;
  avgLoss : num;
  profitFactor : num
}.

Inductive Severity : Type := low | medium | high.

(** The [description] and [recommendation] texts of an insight are display
    strings (three of the descriptions print a number); they carry no
    logic and are left out of the record. *)
Record BiasInsight : Type := mkInsight {
  type : string;
  severity : Severity;
  metric : num
}.

Record Analysis : Type := mkAnalysis {
  insights : list BiasInsight;
  stats : TradeStats
}.

(** ** The engine: [analyzeTrades] *)

Import JsObject.

Definition isBuy (t : Trade) : bool :=
  String.eqb (toLowerCase (action t)) "buy".

Definition isSell (t : Trade) : bool :=
  String.eqb (toLowerCase (action t)) "sell".

(** *** Grouping by symbol

    One round of the first [forEach].  A symbol that names an inherited
    property reads as a truthy value without [push], so the call
    [symbolTrades[trade.symbol].push(trade)] throws a [TypeError]: the
    engine then returns nothing. *)
Definition groupTrade (o : obj (list Trade)) (t : Trade)
  : option (obj (list Trade)) :=
  match get o (symbol t) with
  | Undefined => Some (set o (symbol t) ([] ++ [t]))
  | Own l => Some (set o (symbol t) (l ++ [t]))
  | Inherited => None
  end.

Fixpoint groupBySymbol (o : obj (list Trade)) (trades : list Trade)
  : option (obj (list Trade)) :=
  match trades with
  | [] => Some o
  | t :: r =>
      match groupTrade o t with
      | Some o' => groupBySymbol o' r
      | None => None
      end
  end.

(** *** Position reconstruction

    The variables one symbol's pass reads and writes: its own [position]
    and [avgCost], and the two lists shared by all passes. *)
Record Replay : Type := mkReplay {
  position : num;
  avgCost : num;
  profits : list num;
  losses : list num
}.

(** The body of the inner [forEach]. *)
Definition replayTrade (st : Replay) (t : Trade) : Replay :=
  if isBuy t then
    {| position := add (position st) (quantity t);
       avgCost := div (add (mul (avgCost st) (position st))
                           (mul (price t) (quantity t)))
                      (add (position st) (quantity t));
       profits := profits st;
       losses := losses st |}
  else if isSell t && (position st >? n0)%num then
    let pnl := mul (sub (price t) (avgCost st))
                   (min (quantity t) (position st)) in
    {| position := sub (position st) (quantity t);
       avgCost := avgCost st;
       profits := if (pnl >? n0)%num then profits st ++ [pnl]
                  else profits st;
       losses := if (pnl >? n0)%num then losses st
                 else losses st ++ [abs pnl] |}
  else st.

(** One symbol's pass, from a flat position at cost [0]. *)
Definition startOfSymbol (ps ls : list num) : Replay :=
  {| position := n0; avgCost := n0; profits := ps; losses := ls |}.

Definition replayFrom (st : Replay) (l : list Trade) : Replay :=
  fold_left replayTrade l st.

Definition replaySymbol (pl : list num * list num) (l : list Trade)
  : list num * list num :=
  let st := replayFrom (startOfSymbol (fst pl) (snd pl)) l in
  (profits st, losses st).

(** The outer [forEach] over [Object.values(symbolTrades)]. *)
Definition realize (groups : list (list Trade)) : list num * list num :=
  fold_left replaySymbol groups ([], []).

(** The profit and loss lists of a run, when the grouping completes. *)
Definition realized (trades : list Trade) : option (list num * list num) :=
  match groupBySymbol empty trades with
  | Some symbolTrades => Some (realize (values symbolTrades))
  | None => None
  end.

(** *** Statistics *)

Definition len (l : list num) : num := of_nat (List.length l).

Definition winRateOf (ps ls : list num) : num :=
  if (len ps >? n0)%num
  then mul (div (len ps) (add (len ps) (len ls))) n100
  else n0.

Definition average (l : list num) : num :=
  if (len l >? n0)%num then div (sum l) (len l) else n0.

Definition profitFactorOf (ps ls : list num) : num :=
  if (average ls >? n0)%num
  then div (mul (average ps) (len ps)) (mul (average ls) (len ls))
  else n0.

Definition tradeStatsOf (total : nat) (ps ls : list num) : TradeStats :=
  {| totalTrades := total;
     winRate := toFixed1 (winRateOf ps ls);
     avgProfit := average ps;
     avgLoss := average ls;
     profitFactor := profitFactorOf ps ls |}.

(** *** Bias rules: each yields its insight or nothing. *)

Definition lossAversion (avgP avgL : num) : list BiasInsight :=
  if (avgL >? mul avgP one_and_half)%num then
    [ {| type := "Loss Aversion Bias"; severity := high;
         metric := min (mul (div avgL avgP) n50) n100 |} ]
  else [].

Definition tradesPerSymbol (n keys : nat) : num :=
  div (of_nat n) (of_nat keys).

Definition overtrading (n keys : nat) : list BiasInsight :=
  if (tradesPerSymbol n keys >? n8)%num then
    [ {| type := "Overtrading Bias"; severity := medium;
         metric := min (mul (tradesPerSymbol n keys) n10) n100 |} ]
  else [].

Section Recency.

(** [new Date(s).getTime()]: how a date string is read depends on the
    host; an unreadable one gives NaN. *)
Variable getTime : string -> num.

Definition compareDates (a b : Trade) : num :=
  sub (getTime (date a)) (getTime (date b)).

(** [[...trades].sort(compareDates)] as a stable insertion sort: an
    element moves behind those the comparator puts strictly before it.
    With unreadable dates the comparator is inconsistent and the host may
    order the array differently; only the length of a slice of the result
    is used. *)
Fixpoint insertSorted (x : Trade) (l : list Trade) : list Trade :=
  match l with
  | [] => [x]
  | y :: r =>
      if (compareDates x y >? n0)%num then y :: insertSorted x r
      else x :: l
  end.

Definition sortByDate (l : list Trade) : list Trade :=
  fold_right insertSorted [] l.

Definition recentTrades (trades : list Trade) : list Trade :=
  slice_from (neg (floor (div (of_nat (List.length trades)) n3)))
             (sortByDate trades).

Definition recentConcentration (trades : list Trade) : num :=
  mul (div (of_nat (List.length (recentTrades trades)))
           (of_nat (List.length trades))) n100.

Definition recency (trades : list Trade) : list BiasInsight :=
  if (recentConcentration trades >? n40)%num then
    [ {| type := "Recency Bias"; severity := medium;
         metric := recentConcentration trades |} ]
  else [].

End Recency.

(** [(x || 0)] on a number. *)
Definition or_zero (x : num) : num :=
  match x with NaN => n0 | _ => x end.

(** One round of the second [forEach].  It runs only after the grouping
    has completed, so the symbol is never an inherited name here. *)
Definition countSymbol (o : obj num) (t : Trade) : obj num :=
  set o (symbol t)
      (add (match get o (symbol t) with Own c => or_zero c | _ => n0 end)
           (of_Z 1)).

Definition symbolFrequency (trades : list Trade) : obj num :=
  fold_left countSymbol trades empty.

Definition concentration (trades : list Trade) : num :=
  mul (div (max_list (values (symbolFrequency trades)))
           (of_nat (List.length trades))) n100.

Definition confirmation (trades : list Trade) : list BiasInsight :=
  if (concentration trades >? n25)%num then
    [ {| type := "Confirmation Bias"; severity := low;
         metric := concentration trades |} ]
  else [].

(** The fifth rule reads the unrounded [winRate]. *)
Definition strategy (wr : num) : list BiasInsight :=
  if (wr <? n40)%num then
    [ {| type := "Strategy Effectiveness"; severity := high;
         metric := sub n100 wr |} ]
  else [].

(** *** The whole function

    The arrays [buys] and [sells] of the source are never read and are left
    out.  The result is [None] when the grouping throws.  The body can throw
    in one more place, which depends on the host and is added by
    [analyzeTradesOn] below. *)

Definition analyzeTrades (getTime : string -> num) (trades : list Trade)
  : option Analysis :=
  match groupBySymbol empty trades with
  | None => None
  | Some symbolTrades =>
      let '(ps, ls) := realize (values symbolTrades) in
      let n := List.length trades in
      Some {| insights :=
                lossAversion (average ps) (average ls)
                ++ overtrading n (key_count symbolTrades)
                ++ recency getTime trades
                ++ confirmation trades
                ++ strategy (winRateOf ps ls);
              stats := tradeStatsOf n ps ls |}
  end.

(** *** The argument limit of the host

    [Math.max(...Object.values(symbolFrequency))] at line 121 passes one
    argument per key of [symbolFrequency].  A host accepts only so many
    arguments in one call and throws a [RangeError] beyond that; how many
    depends on the engine and its stack.  [analyzeTradesOn] is the function
    on a host that accepts at most [spreadLimit] arguments: the grouping
    throws first, the spread after it, and the result is [None] in both
    cases. *)

Definition analyzeTradesOn (spreadLimit : nat) (getTime : string -> num)
           (trades : list Trade) : option Analysis :=
  match analyzeTrades getTime trades with
  | Some a =>
      if (key_count (symbolFrequency trades) <=? spreadLimit)%nat
      then Some a else None
  | None => None
  end.

(** ** Notions used to state the properties *)

(** A number is positive when [x > 0] holds in JavaScript: a positive
    rational or [+Infinity]. *)
Definition positive (x : num) : Prop := (x >? n0)%num = true.

(** [0 <= x] in JavaScript: not NaN and not negative. *)
Definition nonneg (x : num) : Prop := (x >=? n0)%num = true.

(** The profit-and-loss amount a sell realises against a state. *)
Definition sellPnl (st : Replay) (t : Trade) : num :=
  mul (sub (price t) (avgCost st)) (min (quantity t) (position st)).

(** Every quantity and price is a finite number that is not negative. *)
Definition nonNegativeFinite (trades : list Trade) : bool :=
  forallb (fun t => is_finite (quantity t) && (quantity t >=? n0)%num
                    && is_finite (price t) && (price t >=? n0)%num) trades.

(** No trade carries a symbol that names an inherited property. *)
Definition plainSymbols (trades : list Trade) : bool :=
  forallb (fun t => negb (is_inherited (symbol t))) trades.

(** Every own key of an object is a plain name. *)
Definition plainKeys {A : Type} (o : obj A) : Prop :=
  forall k, In k (map fst o) -> is_inherited k = false.

(** The percentage [k / n * 100] of two counts, as the rules compute it. *)
Definition percent (k n : nat) : num := mul (div (of_nat k) (of_nat n)) n100.

(** A count between [1] and [m], as a number. *)
Definition countBound (m : nat) (v : num) : Prop :=
  exists c, v = of_nat c /\ (1 <= c <= m)%nat.

(** The insights of the fifth rule. *)
Definition isStrategyInsight (i : BiasInsight) : bool :=
  String.eqb (type i) "Strategy Effectiveness".

Definition strategyInsight (m : num) : BiasInsight :=
  {| type := "Strategy Effectiveness"; severity := high; metric := m |}.

(** The trades of one symbol, in their original order. *)
Definition bySymbol (k : string) (trades : list Trade) : list Trade :=
  filter (fun t => String.eqb (symbol t) k) trades.

(** [o] groups the trades read so far: its keys are distinct, every trade
    read has its symbol among them, and each key holds its symbol's trades in
    their original order. *)
Definition groupsOf (done : list Trade) (o : obj (list Trade)) : Prop :=
  NoDup (map fst o)
  /\ (forall t, In t done -> In (symbol t) (map fst o))
  /\ (forall k l, In (k, l) o -> l = bySymbol k done).

(** The insights by rule name and metric. *)
Definition insightOf (name : string) (sev : Severity) (m : num)
  : BiasInsight :=
  {| type := name; severity := sev; metric := m |}.

(** A buy and a sell of whole quantities at whole prices. *)
Definition buyOf (d s : string) (q p : Z) : Trade :=
  mkTrade d s "buy" (of_Z q) (of_Z p).

Definition sellOf (d s : string) (q p : Z) : Trade :=
  mkTrade d s "sell" (of_Z q) (of_Z p).

(** A host on which no date string can be read. *)
Definition noDate (s : string) : num := NaN.

(** The number of distinct symbols of a trade list. *)
Definition distinctSymbols (trades : list Trade) : nat :=
  List.length (nodup string_dec (map symbol trades)).

(** ** The upload handler: [handleFileSelect]

    The handler and the two callbacks it hands to the CSV parser, as
    transitions of the component's state.  The parser ([Papa.parse]) and
    [parseFloat] belong to the host: the parser delivers either the rows or a
    failure, and [parseFloat] is a parameter.  A row is taken as the parser
    returns it in header mode for a file whose header names the five columns
    and a line that has all five cells: every cell is a string.  The number
    of arguments the host accepts in a call is the parameter [spreadLimit]
    of [analyzeTradesOn]; its memory is not modelled. *)

Module App.

Record Row : Type := mkRow {
  rowDate : string;
  rowSymbol : string;
  rowAction : string;
  rowQuantity : string;
  rowPrice : string
}.

(** What the user or the console gets to see besides the page. *)
Inductive Effect : Type :=
| ConsoleError (msg : string)
| Alert (msg : string).

(** The three state variables of [App], and the effects so far. *)
Record View : Type := mkView {
  insightsState : option (list BiasInsight);
  statsState : option TradeStats;
  isLoading : bool;
  effects : list Effect
}.

Definition initial : View :=
  {| insightsState := None; statsState := None; isLoading := false;
     effects := [] |}.

Section Host.

Variable getTime : string -> num.
Variable parseFloat : string -> num.
Variable spreadLimit : nat.

(** The mapping of [results.data]. *)
Definition toTrade (row : Row) : Trade :=
  {| date := rowDate row;
     symbol := rowSymbol row;
     action := rowAction row;
     quantity := parseFloat (rowQuantity row);
     price := parseFloat (rowPrice row) |}.

(** The synchronous part of [handleFileSelect]. *)
Definition select (v : View) : View :=
  {| insightsState := None; statsState := None; isLoading := true;
     effects := effects v |}.

(** The [complete] callback: [try], [catch] and [finally]. *)
Definition complete (rows : list Row) (v : View) : View :=
  match analyzeTradesOn spreadLimit getTime (map toTrade rows) with
  | Some a =>
      {| insightsState := Some (insights a);
         statsState := Some (stats a);
         isLoading := false;
         effects := effects v |}
  | None =>
      {| insightsState := insightsState v;
         statsState := statsState v;
         isLoading := false;
         effects :=
           effects v
           ++ [ ConsoleError "Error analyzing trades:";
                Alert "Error analyzing trades. Please check your CSV format." ]
      |}
  end.

(** The [error] callback. *)
Definition parseFailed (v : View) : View :=
  {| insightsState := insightsState v;
     statsState := statsState v;
     isLoading := false;
     effects :=
       effects v
       ++ [ ConsoleError "Error parsing CSV:";
            Alert "Error parsing CSV file. Please check the format." ] |}.

Inductive Event : Type :=
| Select
| Complete (rows : list Row)
| ParseFailed.

Definition handle (v : View) (e : Event) : View :=
  match e with
  | Select => select v
  | Complete rows => complete rows v
  | ParseFailed => parseFailed v
  end.

(** The state after a sequence of events, from the initial state. *)
Definition run (es : list Event) : View := fold_left handle es initial.

End Host.

(** [insights && stats && ...]: the results are rendered. *)
Definition showsResults (v : View) : bool :=
  match insightsState v, statsState v with
  | Some _, Some _ => true
  | _, _ => false
  end.

(** [!insights && !isLoading && ...]: the invitation to upload is
    rendered. *)
Definition showsPlaceholder (v : View) : bool :=
  match insightsState v with
  | None => negb (isLoading v)
  | Some _ => false
  end.

(** Results and stats are set together, and never while loading. *)
Definition consistent (v : View) : Prop :=
  (insightsState v = None <-> statsState v = None)
  /\ (isLoading v = true -> insightsState v = None).

(** No row carries a symbol that names an inherited property. *)
Definition plainRows (rows : list Row) : bool :=
  forallb (fun r => negb (is_inherited (rowSymbol r))) rows.

(** The number of distinct symbols of the rows. *)
Definition distinctRowSymbols (rows : list Row) : nat :=
  List.length (nodup string_dec (map rowSymbol rows)).

(** The last event was a file selection. *)
Definition endsWithSelect (es : list Event) : bool :=
  match rev es with
  | Select :: _ => true
  | _ => false
  end.

End App.

(** ** The display: [InsightsDisplay] *)

Module Display.

(** The value of the [severity] field. *)
Definition severityName (s : Severity) : string :=
  match s with
  | low => "low"
  | medium => "medium"
  | high => "high"
  end.

Definition getSeverityColor (severity : string) : string :=
  if String.eqb severity "high" then "bg-red-500"
  else if String.eqb severity "medium" then "bg-yellow-500"
  else if String.eqb severity "low" then "bg-green-500"
  else "bg-gray-500".

Definition getSeverityBadgeVariant (severity : string) : string :=
  if String.eqb severity "high" then "destructive"
  else if String.eqb severity "medium" then "default"
  else if String.eqb severity "low" then "secondary"
  else "outline".

(** The badge of an insight card. *)
Definition badgeOf (i : BiasInsight) : string :=
  getSeverityBadgeVariant (severityName (severity i)).

End Display.

(** ** The statistics on binary64 numbers

    The statistics of lines 60 to 63 ([winRateOf], [sum], [average] and
    [profitFactorOf] above) on the numbers the code computes with: IEEE-754
    binary64, every operation rounded to nearest, ties to even.  An array
    length is far below [2^53] and converts exactly. *)

Module B64.

Import PrimFloat.
Local Open Scope float_scope.

Definition of_nat (n : nat) : float :=
  PrimFloat.of_uint63 (Uint63.of_Z (Z.of_nat n)).

Definition len (l : list float) : float := of_nat (List.length l).

(** [l.reduce((a, b) => a + b, 0)] *)
Definition sum (l : list float) : float := fold_left PrimFloat.add l 0.

Definition winRateOf (ps ls : list float) : float :=
  if PrimFloat.ltb 0 (len ps)
  then PrimFloat.mul (PrimFloat.div (len ps) (PrimFloat.add (len ps) (len ls)))
                     100
  else 0.

Definition average (l : list float) : float :=
  if PrimFloat.ltb 0 (len l) then PrimFloat.div (sum l) (len l) else 0.

Definition profitFactorOf (ps ls : list float) : float :=
  if PrimFloat.ltb 0 (average ls)
  then PrimFloat.div (PrimFloat.mul (average ps) (len ps))
                     (PrimFloat.mul (average ls) (len ls))
  else 0.



(** The events of [fortyPercentRun]: 161 profits and 242 losses of one. *)
Definition manyProfits : list float := repeat 1 161.
Definition manyLosses : list float := repeat 1 242.

End B64.

(** ** Notions used for the further properties *)

(** The number of profit and loss events recorded so far. *)
Definition events (st : Replay) : nat :=
  (List.length (profits st) + List.length (losses st))%nat.

(** A trade the inner loop looks at: a buy or a sell. *)
Definition recognised (t : Trade) : bool := isBuy t || isSell t.

(** The number of sells in a list. *)
Definition sellCount (l : list Trade) : nat := List.length (filter isSell l).

(** The insights of the second rule. *)
Definition isOvertradingInsight (i : BiasInsight) : bool :=
  String.eqb (type i) "Overtrading Bias".

(** A buy of 403, then 161 sells of one above cost and 242 sells of one
    below cost. *)
Definition fortyPercentRun : list Trade :=
  buyOf "d0" "ACME" 403 10
  :: repeat (sellOf "d1" "ACME" 1 11) 161
  ++ repeat (sellOf "d2" "ACME" 1 9) 242.

(** The rule names in the order the engine evaluates the rules. *)
Definition ruleOrder : list string :=
  [ "Loss Aversion Bias"; "Overtrading Bias"; "Recency Bias";
    "Confirmation Bias"; "Strategy Effectiveness" ].

(** [xs] can be read off [ys] from left to right, skipping elements. *)
Fixpoint isSubsequence (xs ys : list string) : bool :=
  match xs, ys with
  | [], _ => true
  | _ :: _, [] => false
  | x :: xs', y :: ys' =>
      if String.eqb x y then isSubsequence xs' ys' else isSubsequence xs ys'
  end.

(** The number of trades of a symbol. *)
Definition symbolCount (k : string) (trades : list Trade) : nat :=
  List.length (bySymbol k trades).

(** [o] counts the trades read so far: its keys are distinct, every trade
    read has its symbol among them, and each key holds the number of its
    symbol's trades. *)
Definition freqOf (done : list Trade) (o : obj num) : Prop :=
  NoDup (map fst o)
  /\ (forall t, In t done -> In (symbol t) (map fst o))
  /\ (forall k c, In (k, c) o ->
        c = of_nat (symbolCount k done) /\ (0 < symbolCount k done)%nat).

(** * Properties *)

(** ** Facts about numbers *)

Lemma eqb_eq (x y : num) : Num.eqb x y = true -> x = y.
Proof.
  destruct x as [|s|a], y as [|s'|b]; simpl; try discriminate; trivial.
  - intros H. apply Bool.eqb_prop in H. now subst.
  - intros H. apply Qc_eq_bool_correct in H. now subst.
Qed.

(** Closed numeric goals are settled by evaluation. *)
Ltac num_eval := apply eqb_eq; vm_compute; reflexivity.

(** The same below lists, pairs and records of numbers. *)
Ltac struct_eval :=
  first
    [ reflexivity
    | vm_compute;
      repeat match goal with
             | |- @eq num _ _ => num_eval
             | |- _ => reflexivity
             | |- _ => progress f_equal
             end ].

Lemma is_zero_spec (q : Qc) : is_zero q = true <-> q = Q2Qc 0.
Proof.
  unfold is_zero. split.
  - apply Qc_eq_bool_correct.
  - intros ->. reflexivity.
Qed.

Lemma is_neg_spec (q : Qc) : is_neg q = true <-> (q < Q2Qc 0)%Qc.
Proof.
  unfold is_neg. rewrite Qclt_alt.
  destruct (q ?= Q2Qc 0)%Qc; split; congruence.
Qed.

Lemma ltb_Fin (a b : Qc) : (Fin a <? Fin b)%num = true <-> (a < b)%Qc.
Proof.
  unfold ltb. rewrite Qclt_alt.
  destruct (a ?= b)%Qc; split; congruence.
Qed.

Lemma positive_cases (x : num) :
  positive x <-> x = PosInf \/ exists q, x = Fin q /\ (Q2Qc 0 < q)%Qc.
Proof.
  unfold positive, gtb, n0, of_Z. destruct x as [|[|]|q]; simpl.
  - split; [discriminate | intros [H|[q [H _]]]; discriminate].
  - split; [now left | trivial].
  - split; [discriminate | intros [H|[q [H _]]]; discriminate].
  - change (Q2Qc (inject_Z 0)) with (Q2Qc 0).
    change (match (Q2Qc 0 ?= q)%Qc with Lt => true | _ => false end)
      with (Fin (Q2Qc 0) <? Fin q)%num.
    rewrite ltb_Fin. split.
    + intros H. right. now exists q.
    + intros [H|[q' [H Hq]]]; [discriminate | now inversion H; subst].
Qed.

(** ** The action test *)

Lemma sell_is_not_buy (t : Trade) : isSell t = true -> isBuy t = false.
Proof.
  unfold isSell, isBuy. intros H.
  apply String.eqb_eq in H. now rewrite H.
Qed.

(** ** The inner loop, one trade at a time *)

Lemma replayFrom_snoc (st : Replay) (l : list Trade) (t : Trade) :
  replayFrom st (l ++ [t]) = replayTrade (replayFrom st l) t.
Proof. unfold replayFrom. now rewrite fold_left_app. Qed.

Lemma leb_not_gtb (x y : num) : (x <=? y)%num = true -> (x >? y)%num = false.
Proof.
  unfold leb, gtb.
  destruct x, y; simpl; try discriminate; apply Bool.negb_true_iff.
Qed.

Lemma replayTrade_sell (st : Replay) (t : Trade) :
  isSell t = true ->
  replayTrade st t =
  if (position st >? n0)%num then
    {| position := sub (position st) (quantity t);
       avgCost := avgCost st;
       profits := if (sellPnl st t >? n0)%num
                  then profits st ++ [sellPnl st t] else profits st;
       losses := if (sellPnl st t >? n0)%num
                 then losses st else losses st ++ [abs (sellPnl st t)] |}
  else st.
Proof.
  intros Hsell. unfold replayTrade, sellPnl.
  rewrite (sell_is_not_buy t Hsell), Hsell, Bool.andb_true_l.
  reflexivity.
Qed.

Lemma replayTrade_buy (st : Replay) (t : Trade) :
  isBuy t = true ->
  replayTrade st t =
  {| position := add (position st) (quantity t);
     avgCost := div (add (mul (avgCost st) (position st))
                         (mul (price t) (quantity t)))
                    (add (position st) (quantity t));
     profits := profits st;
     losses := losses st |}.
Proof. intros Hbuy. unfold replayTrade. now rewrite Hbuy. Qed.

Lemma replayTrade_other (st : Replay) (t : Trade) :
  isBuy t = false -> isSell t = false -> replayTrade st t = st.
Proof. intros Hb Hs. unfold replayTrade. now rewrite Hb, Hs. Qed.

(** C1. A sell met during a symbol's pass (after any prefix [pre] of that
    symbol's trades, from any starting state) while the running position is
    strictly positive realises exactly one event
    [(p - avgCost) * min(q, position)]: it is appended to [profits] when it is
    strictly positive, and otherwise (a zero amount included) its absolute
    value is appended to [losses]; the position then goes down by the whole
    [q], without clamping, and the average cost is kept.  A sell met while
    the position is [<= 0] leaves the state as it is. *)
Theorem sell_semantics (st0 : Replay) (pre : list Trade) (t : Trade) :
  isSell t = true ->
  let st := replayFrom st0 pre in
  let st' := replayFrom st0 (pre ++ [t]) in
  let pnl := sellPnl st t in
  ((position st >? n0)%num = true ->
     position st' = sub (position st) (quantity t)
     /\ avgCost st' = avgCost st
     /\ ((pnl >? n0)%num = true ->
           profits st' = profits st ++ [pnl] /\ losses st' = losses st)
     /\ ((pnl >? n0)%num = false ->
           profits st' = profits st /\ losses st' = losses st ++ [abs pnl])
     /\ (pnl = n0 -> losses st' = losses st ++ [n0])
     /\ (List.length (profits st') + List.length (losses st')
         = S (List.length (profits st) + List.length (losses st)))%nat)
  /\ ((position st <=? n0)%num = true -> st' = st).
Proof.
  intros Hsell st st' pnl. subst st'.
  rewrite replayFrom_snoc. fold st.
  rewrite (replayTrade_sell st t Hsell). fold pnl.
  split.
  - intros Hpos. rewrite Hpos. cbn [position avgCost profits losses].
    split; [reflexivity|]. split; [reflexivity|].
    split; [intros Hp; now rewrite Hp|].
    split; [intros Hp; now rewrite Hp|].
    split.
    + intros Hp. rewrite Hp. reflexivity.
    + subst pnl.
      destruct (sellPnl st t >? n0)%num; rewrite length_app; simpl; lia.
  - intros Hle. now rewrite (leb_not_gtb _ _ Hle).
Qed.

(** A concrete sell against a position of ten bought at ten. *)
Lemma sell_semantics_witness :
  let st := replayFrom (startOfSymbol [] []) [buyOf "d1" "ACME" 10 10] in
  let t := sellOf "d2" "ACME" 10 15 in
  position (replayFrom (startOfSymbol [] []) ([buyOf "d1" "ACME" 10 10] ++ [t]))
  = sub (position st) (quantity t).
Proof.
  exact (proj1 (proj1 (sell_semantics (startOfSymbol [] [])
                         [buyOf "d1" "ACME" 10 10]
                         (sellOf "d2" "ACME" 10 15) eq_refl) eq_refl)).
Defined.

(** The position is not clamped: selling ten against five leaves [-5]. *)
Example oversell_goes_negative :
  position (replayFrom (startOfSymbol [] [])
              [buyOf "d1" "ACME" 5 10; sellOf "d2" "ACME" 10 12])
  = of_Z (-5).
Proof. num_eval. Qed.

(** ** Arithmetic of the special values *)

Lemma mul_n0_one_and_half : mul n0 one_and_half = n0.
Proof. num_eval. Qed.

Lemma Qc_zero_lt_neq (q : Qc) : (Q2Qc 0 < q)%Qc -> q <> Q2Qc 0.
Proof. intros H E. subst. now apply (Qclt_not_eq _ _ H). Qed.

Lemma is_zero_false (q : Qc) : q <> Q2Qc 0 -> is_zero q = false.
Proof.
  intros H. destruct (is_zero q) eqn:E; trivial.
  apply is_zero_spec in E. contradiction.
Qed.

Lemma is_neg_false (q : Qc) : (Q2Qc 0 <= q)%Qc -> is_neg q = false.
Proof.
  intros H. destruct (is_neg q) eqn:E; trivial.
  apply is_neg_spec in E. now apply Qcle_not_lt in H.
Qed.

Lemma div_positive_zero (x : num) : positive x -> div x n0 = PosInf.
Proof.
  intros H. apply positive_cases in H. destruct H as [->|[q [-> Hq]]].
  - reflexivity.
  - unfold div, n0, of_Z.
    change (is_zero (Q2Qc (inject_Z 0))) with true. cbv iota.
    rewrite (is_zero_false q (Qc_zero_lt_neq q Hq)).
    rewrite (is_neg_false q (Qclt_le_weak _ _ Hq)). reflexivity.
Qed.

(** C9. When [avgProfit] is [0] and [avgLoss > 0] the Loss Aversion rule
    fires: the division [avgLoss / avgProfit] gives [Infinity], the cap
    [min(., 100)] brings the metric to exactly [100], and the insight is
    emitted with that metric (no NaN, no error). *)
Theorem loss_aversion_zero_profit (avgL : num) :
  (avgL >? n0)%num = true ->
  div avgL n0 = PosInf
  /\ lossAversion n0 avgL =
     [ {| type := "Loss Aversion Bias"; severity := high; metric := n100 |} ].
Proof.
  intros H. split; [now apply div_positive_zero|].
  unfold lossAversion. rewrite mul_n0_one_and_half, H.
  rewrite (div_positive_zero avgL H).
  do 2 f_equal.
Qed.

Lemma loss_aversion_zero_profit_witness :
  lossAversion n0 (Fin (Q2Qc (35 # 2))) =
  [ {| type := "Loss Aversion Bias"; severity := high; metric := n100 |} ].
Proof.
  exact (proj2 (loss_aversion_zero_profit (Fin (Q2Qc (35 # 2))) eq_refl)).
Defined.

(** ** The unguarded division of the buy branch *)

Lemma Qc_zero_combination (q : Qc) :
  (Q2Qc 0 * Q2Qc 0 + q * Q2Qc 0)%Qc = Q2Qc 0.
Proof. ring. Qed.

(** C3, on the code.  A buy of quantity [0] on a flat position divides by
    [position + quantity = 0]: whatever the price, the average cost becomes
    NaN.  The division has no guard. *)
Theorem zero_quantity_buy_gives_nan (d s : string) (p : num)
        (ps ls : list num) :
  let st := startOfSymbol ps ls in
  let st' := replayTrade st (mkTrade d s "buy" n0 p) in
  add (position st) n0 = n0
  /\ avgCost st' = NaN
  /\ is_finite (avgCost st') = false.
Proof.
  intros st st'.
  assert (H : avgCost st' = NaN).
  { subst st' st. rewrite replayTrade_buy by reflexivity.
    cbn [avgCost position startOfSymbol quantity price].
    destruct p as [|b|q]; try reflexivity.
    unfold n0, of_Z, mul, add, div.
    change (Q2Qc (inject_Z 0)) with (Q2Qc 0).
    rewrite Qc_zero_combination. reflexivity. }
  split; [num_eval|]. split; [exact H|]. now rewrite H.
Qed.

(** ** The shape of a run *)

Lemma analyzeTrades_realized (getTime : string -> num) (trades : list Trade) :
  analyzeTrades getTime trades =
  match groupBySymbol empty trades with
  | None => None
  | Some o =>
      let ps := fst (realize (values o)) in
      let ls := snd (realize (values o)) in
      Some {| insights :=
                lossAversion (average ps) (average ls)
                ++ overtrading (List.length trades) (key_count o)
                ++ recency getTime trades
                ++ confirmation trades
                ++ strategy (winRateOf ps ls);
              stats := tradeStatsOf (List.length trades) ps ls |}
  end.
Proof.
  unfold analyzeTrades. destruct (groupBySymbol empty trades) as [o|]; trivial.
  now destruct (realize (values o)).
Qed.

Lemma analyzeTrades_stats (getTime : string -> num) (trades : list Trade) :
  option_map stats (analyzeTrades getTime trades) =
  option_map (fun pl => tradeStatsOf (List.length trades) (fst pl) (snd pl))
             (realized trades).
Proof.
  rewrite analyzeTrades_realized. unfold realized.
  now destruct (groupBySymbol empty trades).
Qed.

Lemma get_own_set_same {A : Type} (o : obj A) (k : string) (v : A) :
  get_own (set o k v) k = Some v.
Proof.
  induction o as [|[k' v'] r IH]; simpl.
  - now rewrite String.eqb_refl.
  - destruct (String.eqb k k') eqn:E; simpl; rewrite E; trivial.
Qed.

Lemma groupTrade_defined (o : obj (list Trade)) (t : Trade) :
  is_inherited (symbol t) = false -> exists o', groupTrade o t = Some o'.
Proof.
  intros H. unfold groupTrade, get. rewrite H.
  destruct (get_own o (symbol t)); eauto.
Qed.

Lemma groupTrade_inherited (o : obj (list Trade)) (t : Trade) :
  (forall k v, In (k, v) o -> is_inherited k = false) ->
  is_inherited (symbol t) = true -> groupTrade o t = None.
Proof.
  intros Ho H. unfold groupTrade, get.
  destruct (get_own o (symbol t)) eqn:E; [|now rewrite H].
  exfalso. clear -Ho H E.
  induction o as [|[k' v'] r IH]; simpl in E; [discriminate|].
  destruct (String.eqb (symbol t) k') eqn:Ek.
  - apply String.eqb_eq in Ek. subst k'.
    rewrite (Ho (symbol t) v') in H by now left. discriminate.
  - apply IH; trivial. intros k v Hin. apply (Ho k v). now right.
Qed.

Lemma set_keys {A : Type} (o : obj A) (k0 : string) (v0 : A) k v :
  In (k, v) (set o k0 v0) -> k = k0 \/ In k (map fst o).
Proof.
  induction o as [|[k' v'] r IH]; simpl.
  - intros [H|[]]. inversion H. now left.
  - destruct (String.eqb k0 k') eqn:E; simpl.
    + intros [H|H].
      * inversion H; subst. right. now left.
      * right. right. apply in_map_iff. now exists (k, v).
    + intros [H|H].
      * inversion H; subst. right. now left.
      * destruct (IH H) as [->|Hin]; [now left | right; now right].
Qed.

Lemma groupTrade_plain (o o' : obj (list Trade)) (t : Trade) :
  plainKeys o -> groupTrade o t = Some o' ->
  is_inherited (symbol t) = false /\ plainKeys o'.
Proof.
  intros Ho H.
  assert (Ht : is_inherited (symbol t) = false).
  { destruct (is_inherited (symbol t)) eqn:E; trivial.
    rewrite groupTrade_inherited in H; [discriminate| |exact E].
    intros k v Hin. apply Ho. apply in_map_iff. now exists (k, v). }
  split; trivial.
  intros k Hk. apply in_map_iff in Hk. destruct Hk as [[k1 v1] [<- Hin]].
  unfold groupTrade in H.
  destruct (get o (symbol t)); inversion H; subst o'; simpl;
    (apply set_keys in Hin; destruct Hin as [->|Hin]; [exact Ht | now apply Ho]).
Qed.

Lemma groupBySymbol_defined (trades : list Trade) (o : obj (list Trade)) :
  plainKeys o ->
  (exists o', groupBySymbol o trades = Some o') <-> plainSymbols trades = true.
Proof.
  revert o. induction trades as [|t r IH]; intros o Ho; simpl.
  - split; eauto.
  - destruct (groupTrade o t) as [o1|] eqn:E.
    + destruct (groupTrade_plain o o1 t Ho E) as [Ht Ho1].
      rewrite Ht. simpl. now apply IH.
    + split; [intros [o' H]; discriminate|].
      intros H. apply Bool.andb_true_iff in H. destruct H as [H _].
      apply Bool.negb_true_iff in H.
      destruct (groupTrade_defined o t H) as [o' H']. congruence.
Qed.

(** Apart from the host's argument limit, the engine returns a result
    exactly when no symbol names an inherited property; otherwise the
    grouping throws. *)
Lemma analyzeTrades_defined (getTime : string -> num) (trades : list Trade) :
  (exists a, analyzeTrades getTime trades = Some a)
  <-> plainSymbols trades = true.
Proof.
  rewrite <- (groupBySymbol_defined trades empty) by (intros k []).
  rewrite analyzeTrades_realized.
  destruct (groupBySymbol empty trades) as [o|]; split; intros [x H]; eauto;
    discriminate.
Qed.

(** ** Scenarios *)

Lemma values_single {A : Type} (k : string) (v : A) : values [(k, v)] = [v].
Proof.
  unfold values, index_props, named_props. simpl.
  now destruct (array_index k).
Qed.

Lemma groupBySymbol_pair (t1 t2 : Trade) :
  is_inherited (symbol t1) = false -> symbol t2 = symbol t1 ->
  groupBySymbol empty [t1; t2] = Some [(symbol t1, [t1; t2])].
Proof.
  intros H E.
  assert (G1 : groupTrade empty t1 = Some [(symbol t1, [t1])]).
  { unfold groupTrade, get. cbn [get_own empty]. now rewrite H. }
  assert (G2 : groupTrade [(symbol t1, [t1])] t2
               = Some [(symbol t1, [t1; t2])]).
  { unfold groupTrade, get. rewrite E. cbn [get_own].
    rewrite String.eqb_refl. cbn [set]. now rewrite String.eqb_refl. }
  cbn [groupBySymbol]. now rewrite G1, G2.
Qed.

(** C7. Scenario A: a buy of 10 at 10 followed by a sell of 10 at 15 of one
    symbol gives one profit event of 50 and no loss event, and the stats
    [totalTrades = 2], [winRate = 100], [avgProfit = 50], [avgLoss = 0],
    [profitFactor = 0]; the profit factor comes from the branch taken when
    [avgLoss > 0] fails. *)
Theorem scenario_A (getTime : string -> num) (d1 d2 s : string) :
  is_inherited s = false ->
  let trades := [buyOf d1 s 10 10; sellOf d2 s 10 15] in
  realized trades = Some ([of_Z 50], [])
  /\ (average [] >? n0)%num = false
  /\ option_map stats (analyzeTrades getTime trades) =
     Some {| totalTrades := 2; winRate := n100; avgProfit := n50;
             avgLoss := n0; profitFactor := n0 |}.
Proof.
  intros Hs trades.
  assert (R : realized trades = Some ([of_Z 50], [])).
  { unfold realized, trades.
    rewrite groupBySymbol_pair by (trivial; reflexivity).
    rewrite values_single. struct_eval. }
  split; [exact R|]. split; [reflexivity|].
  rewrite analyzeTrades_stats, R. struct_eval.
Qed.

Lemma scenario_A_witness :
  realized [buyOf "2024-01-02" "ACME" 10 10; sellOf "2024-01-03" "ACME" 10 15]
  = Some ([of_Z 50], []).
Proof.
  exact (proj1 (scenario_A noDate "2024-01-02" "2024-01-03" "ACME" eq_refl)).
Defined.

(** ** Rational arithmetic behind the finite values *)

(** Statements on canonical rationals are moved to plain rationals. *)
Ltac qc2q :=
  unfold Qclt, Qcle, Qcdiv, Qcminus in *;
  unfold Qcplus, Qcmult, Qcopp, Qcinv, Q2Qc in *;
  cbn [this] in *; rewrite ?Qred_correct in *.

Lemma Qc_add_pos (a b : Qc) :
  (Q2Qc 0 < a)%Qc -> (Q2Qc 0 < b)%Qc -> (Q2Qc 0 < a + b)%Qc.
Proof. intros Ha Hb. qc2q. lra. Qed.

Lemma Qc_div_pos (a b : Qc) :
  (Q2Qc 0 < a)%Qc -> (Q2Qc 0 < b)%Qc -> (Q2Qc 0 < a / b)%Qc.
Proof.
  intros Ha Hb. qc2q.
  apply Qmult_lt_0_compat; trivial. now apply Qinv_lt_0_compat.
Qed.

Lemma Qc_div_mul (a b : Qc) : b <> Q2Qc 0 -> (a / b * b)%Qc = a.
Proof. intros Hb. field. exact Hb. Qed.

Lemma Qc_of_nat_pos (n : nat) :
  (0 < n)%nat -> (Q2Qc 0 < Q2Qc (inject_Z (Z.of_nat n)))%Qc.
Proof. intros Hn. qc2q. unfold Qlt. simpl. lia. Qed.

Lemma of_nat_positive (n : nat) : (0 < n)%nat -> positive (of_nat n).
Proof.
  intros Hn. apply positive_cases. right.
  eexists. split; [reflexivity|]. now apply Qc_of_nat_pos.
Qed.

Lemma len_positive (l : list num) : l <> [] -> positive (len l).
Proof.
  intros Hl. apply of_nat_positive. destruct l; [contradiction | simpl; lia].
Qed.

Lemma add_n0_l (x : num) : add n0 x = x.
Proof.
  destruct x as [|s|q]; try reflexivity.
  unfold n0, of_Z, add. f_equal. apply Qcplus_0_l.
Qed.

Lemma add_positive (x y : num) : positive x -> positive y -> positive (add x y).
Proof.
  intros Hx Hy. apply positive_cases in Hx, Hy. apply positive_cases.
  destruct Hx as [->|[a [-> Ha]]], Hy as [->|[b [-> Hb]]]; simpl; auto.
  right. exists (a + b)%Qc. split; trivial. now apply Qc_add_pos.
Qed.

Lemma div_positive (x y : num) :
  positive x -> is_finite y = true -> positive y -> positive (div x y).
Proof.
  intros Hx Fy Hy. apply positive_cases in Hx, Hy. apply positive_cases.
  destruct Hy as [->|[b [-> Hb]]]; [discriminate|].
  pose proof (is_zero_false b (Qc_zero_lt_neq b Hb)) as Zb.
  pose proof (is_neg_false b (Qclt_le_weak _ _ Hb)) as Nb.
  destruct Hx as [->|[a [-> Ha]]]; unfold div, PosInf.
  - rewrite Nb. now left.
  - rewrite Zb. right. exists (a / b)%Qc. split; trivial.
    now apply Qc_div_pos.
Qed.

Lemma fold_add_positive (l : list num) (acc : num) :
  positive acc -> Forall positive l -> positive (fold_left add l acc).
Proof.
  revert acc. induction l as [|x r IH]; intros acc Ha Hl; simpl; trivial.
  inversion Hl; subst. apply IH; trivial. now apply add_positive.
Qed.

Lemma sum_positive (l : list num) :
  l <> [] -> Forall positive l -> positive (sum l).
Proof.
  intros Hne Hl. destruct l as [|x r]; [contradiction|].
  inversion Hl; subst. unfold sum. cbn [fold_left]. rewrite add_n0_l.
  now apply fold_add_positive.
Qed.

Lemma average_nil : average [] = n0.
Proof. reflexivity. Qed.

Lemma average_cons (x : num) (r : list num) :
  average (x :: r) = div (sum (x :: r)) (len (x :: r)).
Proof.
  unfold average.
  now rewrite (len_positive (x :: r)) by discriminate.
Qed.

Lemma average_positive (l : list num) :
  l <> [] -> Forall positive l -> positive (average l).
Proof.
  intros Hne Hl. destruct l as [|x r]; [contradiction|].
  rewrite average_cons. apply div_positive.
  - now apply sum_positive.
  - reflexivity.
  - now apply len_positive.
Qed.

(** ** The profits list only holds positive amounts *)

Lemma replayTrade_profits (st : Replay) (t : Trade) :
  profits (replayTrade st t) = profits st
  \/ (isSell t = true /\ positive (position st) /\ positive (sellPnl st t)
      /\ profits (replayTrade st t) = profits st ++ [sellPnl st t]).
Proof.
  destruct (isBuy t) eqn:Hb.
  - left. now rewrite replayTrade_buy.
  - destruct (isSell t) eqn:Hs.
    + rewrite replayTrade_sell by exact Hs.
      destruct (position st >? n0)%num eqn:Hp; [|now left].
      cbn [profits].
      destruct (sellPnl st t >? n0)%num eqn:Hpnl; [|now left].
      right. repeat split; trivial.
    + left. now rewrite replayTrade_other.
Qed.

Lemma replayTrade_losses (st : Replay) (t : Trade) :
  isSell t = true -> positive (position st) -> ~ positive (sellPnl st t) ->
  profits (replayTrade st t) = profits st
  /\ losses (replayTrade st t) = losses st ++ [abs (sellPnl st t)].
Proof.
  intros Hs Hp Hn. rewrite replayTrade_sell by exact Hs.
  unfold positive in Hp, Hn. rewrite Hp. cbn [profits losses].
  destruct (sellPnl st t >? n0)%num; [now elim Hn | now split].
Qed.

Lemma replayTrade_keeps_positive (st : Replay) (t : Trade) :
  Forall positive (profits st) -> Forall positive (profits (replayTrade st t)).
Proof.
  intros H. destruct (replayTrade_profits st t) as [E|[_ [_ [Hp E]]]];
    rewrite E; trivial.
  apply Forall_app. split; trivial. now constructor.
Qed.

Lemma replayFrom_keeps_positive (l : list Trade) (st : Replay) :
  Forall positive (profits st) -> Forall positive (profits (replayFrom st l)).
Proof.
  revert st. induction l as [|t r IH]; intros st H; simpl; trivial.
  apply IH. now apply replayTrade_keeps_positive.
Qed.

Lemma realize_keeps_positive (groups : list (list Trade))
      (pl : list num * list num) :
  Forall positive (fst pl) ->
  Forall positive (fst (fold_left replaySymbol groups pl)).
Proof.
  revert pl. induction groups as [|g r IH]; intros pl H; simpl; trivial.
  apply IH. unfold replaySymbol. cbn [fst].
  now apply replayFrom_keeps_positive.
Qed.

Lemma realized_profits_positive (trades : list Trade) (ps ls : list num) :
  realized trades = Some (ps, ls) -> Forall positive ps.
Proof.
  unfold realized. destruct (groupBySymbol empty trades) as [o|]; [|discriminate].
  intros H. inversion H as [E].
  change ps with (fst (ps, ls)). rewrite <- E.
  apply realize_keeps_positive. constructor.
Qed.

(** C10. On every run that completes, whatever the quantities and prices,
    every element of [profits] is strictly positive, and [avgProfit > 0] as
    soon as a profit event exists.  A trade extends [profits] only when it is
    a sell met on a strictly positive position with an amount [> 0]; such a
    sell whose amount is not [> 0] (zero, negative or NaN) goes to
    [losses]. *)
Theorem profits_strictly_positive (trades : list Trade) (ps ls : list num) :
  realized trades = Some (ps, ls) ->
  Forall positive ps
  /\ (ps <> [] -> positive (average ps))
  /\ (forall st t,
        profits (replayTrade st t) = profits st
        \/ (isSell t = true /\ positive (position st)
            /\ positive (sellPnl st t)
            /\ profits (replayTrade st t) = profits st ++ [sellPnl st t]))
  /\ (forall st t,
        isSell t = true -> positive (position st) ->
        ~ positive (sellPnl st t) ->
        profits (replayTrade st t) = profits st
        /\ losses (replayTrade st t) = losses st ++ [abs (sellPnl st t)]).
Proof.
  intros H. pose proof (realized_profits_positive trades ps ls H) as P.
  split; [exact P|]. split.
  - intros Hne. now apply average_positive.
  - split; [apply replayTrade_profits | apply replayTrade_losses].
Qed.

Lemma profits_strictly_positive_witness : Forall positive [of_Z 50].
Proof.
  apply (profits_strictly_positive
           [buyOf "2024-01-02" "ACME" 10 10; sellOf "2024-01-03" "ACME" 10 15]
           [of_Z 50] []).
  vm_compute. reflexivity.
Defined.

(** ** The profit factor *)

Lemma average_mul_len (l : list num) : mul (average l) (len l) = sum l.
Proof.
  destruct l as [|x r]; [num_eval|].
  rewrite average_cons.
  pose proof (len_positive (x :: r)) as Hp.
  apply positive_cases in Hp; [|discriminate].
  destruct Hp as [Hp|[n [En Hn]]]; [discriminate|].
  rewrite En.
  pose proof (is_zero_false n (Qc_zero_lt_neq n Hn)) as Zn.
  pose proof (is_neg_false n (Qclt_le_weak _ _ Hn)) as Nn.
  destruct (sum (x :: r)) as [|s|a]; unfold div, mul, scale_inf.
  - reflexivity.
  - now rewrite Nn, Zn.
  - rewrite Zn. f_equal. apply Qc_div_mul. now apply Qc_zero_lt_neq.
Qed.

(** In exact arithmetic the two products of line 63 give the sums back, and
    the profit factor is the quotient of the sums; it is [0] whenever
    [avgLoss] is [0], in particular when there is no loss. *)
Lemma profit_factor_identity (ps ls : list num) :
  ((average ls >? n0)%num = true ->
     profitFactorOf ps ls
     = div (mul (average ps) (len ps)) (mul (average ls) (len ls))
     /\ profitFactorOf ps ls = div (sum ps) (sum ls))
  /\ (average ls = n0 -> profitFactorOf ps ls = n0)
  /\ profitFactorOf ps [] = n0.
Proof.
  split; [|split].
  - intros H. unfold profitFactorOf. rewrite H. split; trivial.
    now rewrite !average_mul_len.
  - intros H. unfold profitFactorOf. now rewrite H.
  - reflexivity.
Qed.

(** *** The profit factor in binary64 *)

Section Binary64.

Import PrimFloat.




End Binary64.

(** ** The recency rule *)

Section SortLength.
Variable getTime : string -> num.

Lemma insertSorted_length (x : Trade) (l : list Trade) :
  List.length (insertSorted getTime x l) = S (List.length l).
Proof.
  induction l as [|y r IH]; cbn [insertSorted List.length]; trivial.
  destruct (compareDates getTime x y >? n0)%num; cbn [List.length]; now rewrite ?IH.
Qed.

Lemma insertSorted_perm (x : Trade) (l : list Trade) :
  Permutation (x :: l) (insertSorted getTime x l).
Proof.
  induction l as [|y r IH]; cbn [insertSorted]; [reflexivity|].
  destruct (compareDates getTime x y >? n0)%num; [|reflexivity].
  rewrite perm_swap. now constructor.
Qed.

(** The sorted copy holds the same trades as the input. *)
Lemma sortByDate_perm (l : list Trade) :
  Permutation l (sortByDate getTime l).
Proof.
  induction l as [|x r IH]; cbn [sortByDate fold_right]; [constructor|].
  fold (sortByDate getTime r).
  rewrite <- insertSorted_perm. now constructor.
Qed.

Lemma sortByDate_length (l : list Trade) :
  List.length (sortByDate getTime l) = List.length l.
Proof.
  induction l as [|x r IH]; cbn [sortByDate fold_right List.length]; trivial.
  fold (sortByDate getTime r). now rewrite insertSorted_length, IH.
Qed.
End SortLength.

Lemma this_of_Z (z : Z) : this (Q2Qc (inject_Z z)) = inject_Z z.
Proof.
  change (this (Q2Qc (inject_Z z))) with (Qred (inject_Z z)).
  apply Qred_identity. simpl. apply Z.gcd_1_r.
Qed.

Lemma trunc_of_Z (z : Z) : trunc (Q2Qc (inject_Z z)) = z.
Proof.
  unfold trunc. rewrite this_of_Z. simpl. apply Z.quot_1_r.
Qed.

Lemma neg_of_Z (z : Z) : neg (of_Z z) = of_Z (- z).
Proof.
  unfold neg, of_Z. f_equal. apply Qc_is_canon. qc2q.
  unfold Qeq. simpl. lia.
Qed.

Lemma floor_third (n : nat) :
  Num.floor (div (of_nat n) n3) = of_nat (n / 3).
Proof.
  unfold n3, of_nat, of_Z, div.
  change (is_zero (Q2Qc (inject_Z 3))) with false. cbv iota.
  unfold Num.floor, of_Z. do 2 f_equal.
  rewrite Nat2Z.inj_div. change (Z.of_nat 3) with 3%Z.
  rewrite Zdiv_Qdiv. f_equal. apply Qfloor_comp. qc2q. reflexivity.
Qed.

Lemma slice_from_last {A : Type} (k : nat) (l : list A) :
  (k <= List.length l)%nat ->
  slice_from (neg (of_nat k)) l =
  if (k =? 0)%nat then l else skipn (List.length l - k) l.
Proof.
  intros Hk. unfold of_nat. rewrite neg_of_Z. unfold slice_from, of_Z.
  rewrite trunc_of_Z.
  destruct k as [|k].
  - change (- Z.of_nat 0 <? 0)%Z with false. cbv iota.
    rewrite Z.min_l by lia. reflexivity.
  - replace (- Z.of_nat (S k) <? 0)%Z with true
      by (symmetry; apply Z.ltb_lt; lia).
    cbn [Nat.eqb]. f_equal. lia.
Qed.

Lemma recentTrades_eq (getTime : string -> num) (trades : list Trade) :
  let n := List.length trades in
  recentTrades getTime trades =
  if (n / 3 =? 0)%nat then sortByDate getTime trades
  else skipn (n - n / 3) (sortByDate getTime trades).
Proof.
  intros n. unfold recentTrades. rewrite floor_third. fold n.
  rewrite slice_from_last; rewrite sortByDate_length; fold n; trivial.
  apply Nat.Div0.div_le_upper_bound. lia.
Qed.

Lemma recentTrades_length (getTime : string -> num) (trades : list Trade) :
  let n := List.length trades in
  List.length (recentTrades getTime trades) =
  if (n / 3 =? 0)%nat then n else (n / 3)%nat.
Proof.
  intros n. rewrite recentTrades_eq. fold n.
  destruct (n / 3 =? 0)%nat.
  - apply sortByDate_length.
  - rewrite length_skipn, sortByDate_length. fold n.
    assert (n / 3 <= n)%nat by (apply Nat.Div0.div_le_upper_bound; lia). lia.
Qed.

(** ** Percentages of counts *)

Lemma percent_fin (k n : nat) :
  (0 < n)%nat ->
  percent k n =
  Fin (Q2Qc (inject_Z (Z.of_nat k)) / Q2Qc (inject_Z (Z.of_nat n))
       * Q2Qc (inject_Z 100))%Qc.
Proof.
  intros Hn. unfold percent, n100, of_nat, of_Z, div.
  rewrite (is_zero_false _ (Qc_zero_lt_neq _ (Qc_of_nat_pos n Hn))).
  reflexivity.
Qed.

Lemma percent_full (n : nat) : (0 < n)%nat -> percent n n = n100.
Proof.
  intros Hn. rewrite percent_fin by exact Hn. unfold n100, of_Z. f_equal.
  field. apply Qc_zero_lt_neq. now apply Qc_of_nat_pos.
Qed.

Lemma leb_Fin (a b : Qc) : (Fin a <=? Fin b)%num = true <-> (a <= b)%Qc.
Proof.
  unfold leb. rewrite negb_true_iff. split.
  - intros H. apply Qcnot_lt_le. intros L. apply ltb_Fin in L. congruence.
  - intros H. destruct (Fin b <? Fin a)%num eqn:E; trivial.
    apply ltb_Fin in E. now apply Qcle_not_lt in H.
Qed.

Lemma gtb_Fin_false (a b : Qc) : (a <= b)%Qc -> (Fin a >? Fin b)%num = false.
Proof.
  intros H. unfold gtb. destruct (Fin b <? Fin a)%num eqn:E; trivial.
  apply ltb_Fin in E. now apply Qcle_not_lt in H.
Qed.

Lemma Q_ratio_le (k n : Z) (c d : Q) :
  (0 < n)%Z -> (0 <= c)%Q -> (inject_Z k * c <= inject_Z n * d)%Q ->
  (inject_Z k / inject_Z n * c <= d)%Q.
Proof.
  intros Hn Hc H.
  assert (Hq : (0 < inject_Z n)%Q) by (change 0%Q with (inject_Z 0); rewrite <- Zlt_Qlt; exact Hn).
  unfold Qdiv.
  setoid_replace (inject_Z k * / inject_Z n * c)%Q
    with ((inject_Z k * c) / inject_Z n)%Q by (field; lra).
  apply Qle_shift_div_r; trivial. lra.
Qed.

Lemma percent_le_100 (k n : nat) :
  (0 < n)%nat -> (k <= n)%nat -> (percent k n <=? n100)%num = true.
Proof.
  intros Hn Hk. rewrite percent_fin by exact Hn. unfold n100, of_Z.
  apply leb_Fin. qc2q. change (inject_Z 100) with 100%Q.
  apply Q_ratio_le; [lia | lra |].
  assert (inject_Z (Z.of_nat k) <= inject_Z (Z.of_nat n))%Q
    by (rewrite <- Zle_Qle; lia).
  lra.
Qed.

Lemma percent_third (k n : nat) :
  (0 < n)%nat -> (3 * k <= n)%nat -> (percent k n >? n40)%num = false.
Proof.
  intros Hn Hk. rewrite percent_fin by exact Hn. unfold n40, of_Z.
  apply gtb_Fin_false. qc2q.
  change (inject_Z 100) with 100%Q. change (inject_Z 40) with 40%Q.
  apply Q_ratio_le; [lia | lra |].
  assert (3 * inject_Z (Z.of_nat k) <= inject_Z (Z.of_nat n))%Q.
  { change 3%Q with (inject_Z 3). rewrite <- inject_Z_mult, <- Zle_Qle. lia. }
  assert (0 <= inject_Z (Z.of_nat n))%Q
    by (change 0%Q with (inject_Z 0); rewrite <- Zle_Qle; lia).
  lra.
Qed.

Lemma recentConcentration_percent (getTime : string -> num)
      (trades : list Trade) :
  recentConcentration getTime trades =
  percent (List.length (recentTrades getTime trades)) (List.length trades).
Proof. reflexivity. Qed.

(** The rule fires on lists of one or two trades and on no other list. *)
Lemma recency_characterisation (getTime : string -> num)
      (trades : list Trade) :
  let n := List.length trades in
  recency getTime trades =
  if (n =? 1)%nat || (n =? 2)%nat then
    [ {| type := "Recency Bias"; severity := medium; metric := n100 |} ]
  else [].
Proof.
  intros n. unfold recency. rewrite recentConcentration_percent.
  rewrite recentTrades_length. fold n.
  destruct n as [|[|[|n]]].
  - reflexivity.
  - reflexivity.
  - reflexivity.
  - replace (S (S (S n)) / 3 =? 0)%nat with false.
    + rewrite percent_third; trivial; [lia|].
      apply Nat.Div0.mul_div_le.
    + symmetry. apply Nat.eqb_neq. intros E.
      apply Nat.div_small_iff in E; lia.
Qed.

(** C2, on the code.  For a list of one trade [floor(1/3)] is [0], yet the
    slice [sortedTrades.slice(-0)] keeps the whole array: one trade is
    selected, the concentration is [100] and the insight is emitted.  The
    same happens for two trades. *)
Theorem recency_on_short_lists (getTime : string -> num) (t1 t2 : Trade) :
  Num.floor (div (of_nat 1) n3) = n0
  /\ recentTrades getTime [t1] = [t1]
  /\ recency getTime [t1] =
     [ {| type := "Recency Bias"; severity := medium; metric := n100 |} ]
  /\ Num.floor (div (of_nat 2) n3) = n0
  /\ List.length (recentTrades getTime [t1; t2]) = 2%nat
  /\ recency getTime [t1; t2] =
     [ {| type := "Recency Bias"; severity := medium; metric := n100 |} ].
Proof.
  split; [num_eval|]. split; [reflexivity|].
  split; [apply (recency_characterisation getTime [t1])|].
  split; [num_eval|].
  split; [apply (recentTrades_length getTime [t1; t2])|].
  apply (recency_characterisation getTime [t1; t2]).
Qed.

(** ** The symbol frequencies *)

Lemma add_of_nat (a b : nat) : add (of_nat a) (of_nat b) = of_nat (a + b).
Proof.
  unfold add, of_nat, of_Z. f_equal. apply Qc_is_canon. qc2q.
  now rewrite Nat2Z.inj_add, inject_Z_plus.
Qed.

Lemma get_own_In {A : Type} (o : obj A) (k : string) (v : A) :
  get_own o k = Some v -> In v (map snd o).
Proof.
  induction o as [|[k' v'] r IH]; simpl; [discriminate|].
  destruct (String.eqb k k').
  - intros H. inversion H. now left.
  - intros H. right. now apply IH.
Qed.

Lemma set_values {A : Type} (o : obj A) (k : string) (v0 v : A) :
  In v (map snd (set o k v0)) -> v = v0 \/ In v (map snd o).
Proof.
  induction o as [|[k' v'] r IH]; simpl.
  - intros [H|[]]. now left.
  - destruct (String.eqb k k'); simpl.
    + intros [H|H]; [now left | right; now right].
    + intros [H|H]; [right; now left|].
      destruct (IH H) as [E|Hin]; [now left | right; now right].
Qed.

Lemma insert_index_In {A : Type} (n : N) (v : A) (l : list (N * A)) (w : A) :
  In w (map snd (insert_index n v l)) -> w = v \/ In w (map snd l).
Proof.
  induction l as [|[m u] r IH]; simpl.
  - intros [H|[]]. now left.
  - destruct (n <=? m)%N; simpl.
    + intros [H|[H|H]]; [now left | right; now left | right; now right].
    + intros [H|H]; [right; now left|].
      destruct (IH H) as [E|Hin]; [now left | right; now right].
Qed.

Lemma values_In {A : Type} (o : obj A) (v : A) :
  In v (values o) -> In v (map snd o).
Proof.
  unfold values. intros H. apply in_app_or in H. destruct H as [H|H].
  - induction o as [|[k u] r IH]; simpl in *; [contradiction|].
    destruct (array_index k).
    + apply insert_index_In in H. destruct H as [->|H]; [now left|].
      right. now apply IH.
    + right. now apply IH.
  - unfold named_props in H. apply in_map_iff in H.
    destruct H as [kv [<- Hin]]. apply filter_In in Hin.
    apply in_map. tauto.
Qed.

Lemma countBound_mono (m m' : nat) (v : num) :
  (m <= m')%nat -> countBound m v -> countBound m' v.
Proof. intros Hm [c [E Hc]]. exists c. split; trivial. lia. Qed.

Lemma countSymbol_bound (m : nat) (o : obj num) (t : Trade) :
  (forall v, In v (map snd o) -> countBound m v) ->
  forall v, In v (map snd (countSymbol o t)) -> countBound (S m) v.
Proof.
  intros Ho v Hv. unfold countSymbol in Hv. apply set_values in Hv.
  destruct Hv as [->|Hv].
  - unfold get. destruct (get_own o (symbol t)) as [c|] eqn:E.
    + apply get_own_In in E. destruct (Ho c E) as [c' [-> Hc]].
      exists (S c'). split; [|lia].
      change (or_zero (of_nat c')) with (of_nat c').
      change (of_Z 1) with (of_nat 1). rewrite add_of_nat.
      f_equal. lia.
    + exists 1%nat. split; [|lia].
      destruct (is_inherited (symbol t)); num_eval.
  - apply (countBound_mono m); [lia | now apply Ho].
Qed.

Lemma fold_countSymbol_bound (trades : list Trade) (m : nat) (o : obj num) :
  (forall v, In v (map snd o) -> countBound m v) ->
  forall v, In v (map snd (fold_left countSymbol trades o)) ->
            countBound (m + List.length trades) v.
Proof.
  revert m o. induction trades as [|t r IH]; intros m o Ho v Hv; simpl in *.
  - rewrite Nat.add_0_r. now apply Ho.
  - rewrite <- Nat.add_succ_comm. apply (IH (S m) (countSymbol o t)); trivial.
    now apply countSymbol_bound.
Qed.

Lemma symbolFrequency_bound (trades : list Trade) (v : num) :
  In v (values (symbolFrequency trades)) ->
  countBound (List.length trades) v.
Proof.
  intros H. apply values_In in H.
  apply (fold_countSymbol_bound trades 0 empty); trivial.
  intros w [].
Qed.

Lemma max_of_counts (m : nat) (x y : num) :
  x = NegInf \/ countBound m x -> countBound m y ->
  countBound m (max x y).
Proof.
  intros [->|[a [-> Ha]]] [b [-> Hb]].
  - exists b. split; trivial.
  - unfold max, of_nat, of_Z.
    destruct (Fin _ <? Fin _)%num; [exists b | exists a]; now split.
Qed.

Lemma fold_max_counts (m : nat) (l : list num) (acc : num) :
  acc = NegInf \/ countBound m acc ->
  (forall v, In v l -> countBound m v) ->
  fold_left max l acc = NegInf \/ countBound m (fold_left max l acc).
Proof.
  revert acc. induction l as [|x r IH]; intros acc Ha Hl; simpl; trivial.
  apply IH.
  - right. apply max_of_counts; trivial. apply Hl. now left.
  - intros v Hv. apply Hl. now right.
Qed.

Lemma maxFreq_cases (trades : list Trade) :
  let maxFreq := max_list (values (symbolFrequency trades)) in
  maxFreq = NegInf \/ countBound (List.length trades) maxFreq.
Proof.
  apply fold_max_counts; [now left|].
  intros v. apply symbolFrequency_bound.
Qed.

(** ** The grouping is stable *)

Lemma set_In_nodup {A : Type} (o : obj A) (k0 : string) (v0 : A) k v :
  NoDup (map fst o) -> In (k, v) (set o k0 v0) ->
  (k = k0 /\ v = v0) \/ (k <> k0 /\ In (k, v) o).
Proof.
  induction o as [|[k' v'] r IH]; simpl; intros ND H.
  - destruct H as [H|[]]. inversion H. now left.
  - inversion ND as [|? ? Hnot ND']; subst.
    destruct (String.eqb k0 k') eqn:E.
    + apply String.eqb_eq in E. subst k'. destruct H as [H|H].
      * inversion H. now left.
      * right. split; [|now right].
        intros ->. apply Hnot. apply in_map_iff. now exists (k0, v).
    + apply String.eqb_neq in E. destruct H as [H|H].
      * inversion H; subst. right. split; [congruence | now left].
      * destruct (IH ND' H) as [L|[N Hin]]; [now left|].
        right. split; [exact N | now right].
Qed.

Lemma set_keeps_keys {A : Type} (o : obj A) (k0 : string) (v0 : A) k :
  In k (map fst o) -> In k (map fst (set o k0 v0)).
Proof.
  induction o as [|[k' v'] r IH]; simpl; [tauto|].
  destruct (String.eqb k0 k'); simpl; intros [H|H]; auto.
Qed.

Lemma set_adds_key {A : Type} (o : obj A) (k0 : string) (v0 : A) :
  In k0 (map fst (set o k0 v0)).
Proof.
  induction o as [|[k' v'] r IH]; simpl; [now left|].
  destruct (String.eqb k0 k') eqn:E; simpl; [|now right].
  apply String.eqb_eq in E. now left.
Qed.

Lemma set_NoDup {A : Type} (o : obj A) (k0 : string) (v0 : A) :
  NoDup (map fst o) -> NoDup (map fst (set o k0 v0)).
Proof.
  induction o as [|[k' v'] r IH]; simpl; intros ND.
  - constructor; [tauto | constructor].
  - inversion ND as [|? ? Hnot ND']; subst.
    destruct (String.eqb k0 k') eqn:E; simpl; [exact ND|].
    constructor; [|now apply IH].
    intros Hin. apply in_map_iff in Hin. destruct Hin as [[k v] [Ek Hin]].
    simpl in Ek. subst k. apply set_keys in Hin.
    destruct Hin as [->|Hin]; [|contradiction].
    now rewrite String.eqb_refl in E.
Qed.

Lemma get_own_Some_In {A : Type} (o : obj A) (k : string) (v : A) :
  get_own o k = Some v -> In (k, v) o.
Proof.
  induction o as [|[k' v'] r IH]; simpl; [discriminate|].
  destruct (String.eqb k k') eqn:E.
  - apply String.eqb_eq in E. intros H. inversion H. subst. now left.
  - intros H. right. now apply IH.
Qed.

Lemma get_own_None_keys {A : Type} (o : obj A) (k : string) :
  get_own o k = None -> ~ In k (map fst o).
Proof.
  induction o as [|[k' v'] r IH]; simpl; [tauto|].
  destruct (String.eqb k k') eqn:E; [discriminate|].
  apply String.eqb_neq in E. intros H [H'|H']; [congruence | now apply IH].
Qed.

Lemma bySymbol_snoc (k : string) (done : list Trade) (t : Trade) :
  bySymbol k (done ++ [t]) =
  bySymbol k done ++ (if String.eqb (symbol t) k then [t] else []).
Proof. unfold bySymbol. rewrite filter_app. reflexivity. Qed.

Lemma bySymbol_absent (k : string) (done : list Trade) :
  (forall t, In t done -> symbol t <> k) -> bySymbol k done = [].
Proof.
  intros H. induction done as [|t r IH]; simpl; trivial.
  destruct (String.eqb (symbol t) k) eqn:E.
  - apply String.eqb_eq in E. elim (H t); [now left | exact E].
  - apply IH. intros u Hu. apply H. now right.
Qed.

Lemma groupTrade_groupsOf (done : list Trade) (o o' : obj (list Trade))
      (t : Trade) :
  groupsOf done o -> groupTrade o t = Some o' -> groupsOf (done ++ [t]) o'.
Proof.
  intros [ND [Hk Hl]] H. unfold groupTrade, get in H.
  assert (S : exists v, o' = set o (symbol t) v
                        /\ v = bySymbol (symbol t) done ++ [t]).
  { destruct (get_own o (symbol t)) as [l|] eqn:E.
    - inversion H. eexists. split; [reflexivity|].
      f_equal. apply Hl. now apply get_own_Some_In.
    - destruct (is_inherited (symbol t)); [discriminate|].
      inversion H. eexists. split; [reflexivity|].
      rewrite bySymbol_absent; trivial.
      intros u Hu Eu. apply (get_own_None_keys o (symbol t) E).
      rewrite <- Eu. now apply Hk. }
  destruct S as [v [-> Ev]]. split; [now apply set_NoDup|]. split.
  - intros u Hu. apply in_app_or in Hu. destruct Hu as [Hu|[<-|[]]].
    + apply set_keeps_keys. now apply Hk.
    + apply set_adds_key.
  - intros k l Hin. rewrite bySymbol_snoc.
    apply set_In_nodup in Hin; trivial.
    destruct Hin as [[-> ->]|[N Hin]].
    + now rewrite String.eqb_refl.
    + replace (String.eqb (symbol t) k) with false.
      * rewrite app_nil_r. now apply Hl.
      * symmetry. apply String.eqb_neq. congruence.
Qed.

Lemma groupBySymbol_groupsOf (trades done : list Trade)
      (o o' : obj (list Trade)) :
  groupsOf done o -> groupBySymbol o trades = Some o' ->
  groupsOf (done ++ trades) o'.
Proof.
  revert done o. induction trades as [|t r IH]; intros done o Ho H; simpl in H.
  - inversion H. subst. now rewrite app_nil_r.
  - destruct (groupTrade o t) as [o1|] eqn:E; [|discriminate].
    replace (done ++ t :: r) with ((done ++ [t]) ++ r)
      by (now rewrite <- app_assoc).
    apply (IH (done ++ [t]) o1); trivial.
    now apply (groupTrade_groupsOf done o).
Qed.

(** Each list the outer loop replays is the whole sub-sequence of one
    symbol's trades, in the order of the input. *)
Lemma groups_are_symbol_subsequences (trades : list Trade)
      (o : obj (list Trade)) (l : list Trade) :
  groupBySymbol empty trades = Some o -> In l (values o) ->
  exists k, l = bySymbol k trades.
Proof.
  intros H Hl. apply values_In in Hl. apply in_map_iff in Hl.
  destruct Hl as [[k l'] [E Hin]]. simpl in E. subst l'.
  exists k.
  destruct (groupBySymbol_groupsOf trades [] empty o) as [_ [_ G]]; trivial.
  - split; [constructor|]. split; intros; contradiction.
  - now apply G.
Qed.

(** ** Every emitted metric is at most 100 *)

Lemma min_cap (x : num) : x <> NaN -> (min x n100 <=? n100)%num = true.
Proof.
  intros Hx. unfold min, n100, of_Z.
  destruct x as [|s|a]; [contradiction| |].
  - destruct (Fin _ <? Inf s)%num eqn:E; [reflexivity|].
    unfold leb. now rewrite E.
  - destruct (Fin _ <? Fin a)%num eqn:E; [reflexivity|].
    unfold leb. now rewrite E.
Qed.

Lemma gtb_not_nan (x y : num) : (x >? y)%num = true -> x <> NaN /\ y <> NaN.
Proof.
  unfold gtb. destruct x, y; simpl; try discriminate; split; discriminate.
Qed.

Lemma mul_finite_not_nan (x : num) (c : Qc) :
  x <> NaN -> is_zero c = false -> mul x (Fin c) <> NaN.
Proof.
  intros Hx Hc. destruct x as [|s|a]; [contradiction| |]; simpl.
  - unfold scale_inf. rewrite Hc. discriminate.
  - discriminate.
Qed.

Lemma overtrading_metric (n keys : nat) (i : BiasInsight) :
  In i (overtrading n keys) -> (metric i <=? n100)%num = true.
Proof.
  unfold overtrading.
  destruct (tradesPerSymbol n keys >? n8)%num eqn:E; [|intros []].
  intros [<-|[]]. cbn [metric]. apply min_cap.
  apply mul_finite_not_nan; [|reflexivity].
  now apply gtb_not_nan in E.
Qed.

(** The average profit of a run is [0] or positive. *)
Lemma average_profit_cases (ps : list num) :
  Forall positive ps -> average ps = n0 \/ positive (average ps).
Proof.
  intros H. destruct ps as [|x r]; [now left|].
  right. apply average_positive; [discriminate | exact H].
Qed.

Lemma lossAversion_metric (avgP avgL : num) (i : BiasInsight) :
  avgP = n0 \/ positive avgP ->
  In i (lossAversion avgP avgL) -> (metric i <=? n100)%num = true.
Proof.
  intros HP. unfold lossAversion.
  destruct (avgL >? mul avgP one_and_half)%num eqn:E; [|intros []].
  intros [<-|[]]. cbn [metric]. apply min_cap.
  apply mul_finite_not_nan; [|reflexivity].
  destruct HP as [->|HP].
  - rewrite mul_n0_one_and_half in E.
    rewrite (div_positive_zero avgL E). discriminate.
  - apply positive_cases in HP. destruct HP as [->|[q [-> Hq]]].
    + destruct avgL as [|[|]|a]; discriminate.
    + pose proof (is_zero_false q (Qc_zero_lt_neq q Hq)) as Zq.
      destruct avgL as [|s|a]; [discriminate| |]; unfold div.
      * discriminate.
      * rewrite Zq. discriminate.
Qed.

Lemma recency_metric (getTime : string -> num) (trades : list Trade)
      (i : BiasInsight) :
  In i (recency getTime trades) -> (metric i <=? n100)%num = true.
Proof.
  rewrite recency_characterisation.
  destruct (_ || _); [|intros []].
  intros [<-|[]]. reflexivity.
Qed.

Lemma of_nat_not_neg (n : nat) :
  is_neg (Q2Qc (inject_Z (Z.of_nat n))) = false.
Proof.
  apply is_neg_false. qc2q. unfold Qle. simpl. lia.
Qed.

Lemma confirmation_metric (trades : list Trade) (i : BiasInsight) :
  In i (confirmation trades) -> (metric i <=? n100)%num = true.
Proof.
  unfold confirmation.
  destruct (concentration trades >? n25)%num eqn:E; [|intros []].
  intros [<-|[]]. cbn [metric]. revert E. unfold concentration.
  destruct (maxFreq_cases trades) as [->|[c [-> Hc]]].
  - unfold of_nat, of_Z, div, NegInf. rewrite of_nat_not_neg. discriminate.
  - intros _. apply percent_le_100; lia.
Qed.

Lemma winRateOf_cases (ps ls : list num) :
  winRateOf ps ls =
  match ps with
  | [] => n0
  | _ :: _ => percent (List.length ps) (List.length ps + List.length ls)
  end.
Proof.
  unfold winRateOf. destruct ps as [|x r]; [reflexivity|].
  rewrite (len_positive (x :: r)) by discriminate.
  unfold len, percent. now rewrite add_of_nat.
Qed.

Lemma percent_nonneg (k n : nat) :
  (0 < n)%nat -> (n0 <=? percent k n)%num = true.
Proof.
  intros Hn. rewrite percent_fin by exact Hn. unfold n0, of_Z.
  apply leb_Fin. qc2q. change (inject_Z 100) with 100%Q.
  change (inject_Z 0) with 0%Q.
  assert (0 <= inject_Z (Z.of_nat k))%Q
    by (change 0%Q with (inject_Z 0); rewrite <- Zle_Qle; lia).
  assert (0 < / inject_Z (Z.of_nat n))%Q.
  { apply Qinv_lt_0_compat. change 0%Q with (inject_Z 0).
    rewrite <- Zlt_Qlt. lia. }
  apply Qmult_le_0_compat; [|lra].
  apply Qmult_le_0_compat; lra.
Qed.

(** The unrounded win rate is a finite number between [0] and [100]. *)
Lemma winRateOf_range (ps ls : list num) :
  exists w, winRateOf ps ls = Fin w
            /\ (Q2Qc 0 <= w)%Qc /\ (w <= Q2Qc (inject_Z 100))%Qc.
Proof.
  rewrite winRateOf_cases. destruct ps as [|x r].
  - exists (Q2Qc 0). repeat split; [apply Qcle_refl | qc2q; unfold Qle; simpl; lia].
  - set (k := List.length (x :: r)). set (n := (k + List.length ls)%nat).
    assert (Hn : (0 < n)%nat) by (subst n k; simpl; lia).
    pose proof (percent_nonneg k n Hn) as H0.
    pose proof (percent_le_100 k n Hn ltac:(lia)) as H1.
    rewrite percent_fin in * by exact Hn.
    eexists. split; [reflexivity|]. split.
    + now apply leb_Fin in H0.
    + now apply leb_Fin in H1.
Qed.

Lemma strategy_metric (ps ls : list num) (i : BiasInsight) :
  In i (strategy (winRateOf ps ls)) -> (metric i <=? n100)%num = true.
Proof.
  destruct (winRateOf_range ps ls) as [w [-> [H0 _]]].
  unfold strategy. destruct (Fin w <? n40)%num; [|intros []].
  intros [<-|[]]. cbn [metric]. unfold n100, of_Z, sub, neg, add.
  apply leb_Fin. qc2q. lra.
Qed.

Lemma metric_le_100 (getTime : string -> num) (trades : list Trade)
      (a : Analysis) (i : BiasInsight) :
  analyzeTrades getTime trades = Some a -> In i (insights a) ->
  (metric i <=? n100)%num = true.
Proof.
  rewrite analyzeTrades_realized.
  destruct (groupBySymbol empty trades) as [o|] eqn:G; [|discriminate].
  intros H. inversion H; subst a; clear H. cbn [insights].
  assert (P : Forall positive (fst (realize (values o)))).
  { apply (realized_profits_positive trades _ (snd (realize (values o)))).
    unfold realized. rewrite G. now destruct (realize (values o)). }
  rewrite !in_app_iff. intros [H|[H|[H|[H|H]]]].
  - apply (lossAversion_metric _ _ i (average_profit_cases _ P) H).
  - apply (overtrading_metric _ _ i H).
  - apply (recency_metric getTime trades i H).
  - apply (confirmation_metric trades i H).
  - apply (strategy_metric _ _ i H).
Qed.

(** C8, as the code has it.  On every run that completes, each emitted
    insight has a metric that is a number at most [100]: the first two rules
    cap it with [min(., 100)], the next two emit a share of the trades in
    percent, and the last one emits [100 - winRate] with [winRate >= 0]. *)
Theorem metrics_at_most_100 (getTime : string -> num) (trades : list Trade)
        (a : Analysis) (i : BiasInsight) :
  analyzeTrades getTime trades = Some a -> In i (insights a) ->
  (metric i <=? n100)%num = true /\ (metric i >? n100)%num = false.
Proof.
  intros Ha Hi. pose proof (metric_le_100 getTime trades a i Ha Hi) as H.
  split; [exact H | now apply leb_not_gtb].
Qed.

Lemma metrics_at_most_100_witness :
  (metric (strategyInsight n100) <=? n100)%num = true
  /\ (metric (strategyInsight n100) >? n100)%num = false.
Proof.
  apply (metrics_at_most_100 noDate []
           {| insights := [strategyInsight n100];
              stats := mkStats 0 n0 n0 n0 n0 |}).
  - struct_eval.
  - left. reflexivity.
Defined.

(** C8, as stated, fails: no input makes the engine emit a metric strictly
    greater than [100]. *)
Lemma no_metric_above_100 :
  ~ (exists (getTime : string -> num) (trades : list Trade)
            (a : Analysis) (i : BiasInsight),
        analyzeTrades getTime trades = Some a
        /\ In i (insights a)
        /\ (metric i >? n100)%num = true).
Proof.
  intros [getTime [trades [a [i [Ha [Hi Hm]]]]]].
  pose proof (metric_le_100 getTime trades a i Ha Hi) as H.
  apply leb_not_gtb in H. congruence.
Qed.

(** ** The strategy effectiveness rule *)

Lemma filter_strategy_lossAversion (avgP avgL : num) :
  filter isStrategyInsight (lossAversion avgP avgL) = [].
Proof. unfold lossAversion. now destruct (_ >? _)%num. Qed.

Lemma filter_strategy_overtrading (n keys : nat) :
  filter isStrategyInsight (overtrading n keys) = [].
Proof. unfold overtrading. now destruct (_ >? _)%num. Qed.

Lemma filter_strategy_recency (getTime : string -> num)
      (trades : list Trade) :
  filter isStrategyInsight (recency getTime trades) = [].
Proof. unfold recency. now destruct (_ >? _)%num. Qed.

Lemma filter_strategy_confirmation (trades : list Trade) :
  filter isStrategyInsight (confirmation trades) = [].
Proof. unfold confirmation. now destruct (_ >? _)%num. Qed.

Lemma filter_strategy_strategy (wr : num) :
  filter isStrategyInsight (strategy wr) =
  if (wr <? n40)%num then [strategyInsight (sub n100 wr)] else [].
Proof. unfold strategy. now destruct (_ <? _)%num. Qed.

(** C6, as the code has it.  On every input the Strategy Effectiveness
    insight is emitted exactly when the win rate the rule reads is below
    [40], with severity high and metric [100] minus that rate, whether or
    not any trade was matched.  The rate the rule reads is the unrounded
    [winRate] of line 60; the [winRate] of the returned stats is its
    rounding to one decimal.  On the empty list the stats are all [0], this
    insight is emitted with metric [100], and it is the only insight. *)
Theorem strategy_effectiveness_rule (getTime : string -> num)
        (trades : list Trade) :
  option_map (fun a => filter isStrategyInsight (insights a))
             (analyzeTrades getTime trades)
  = option_map
      (fun pl =>
         let wr := winRateOf (fst pl) (snd pl) in
         if (wr <? n40)%num then [strategyInsight (sub n100 wr)] else [])
      (realized trades)
  /\ analyzeTrades getTime [] =
     Some {| insights := [strategyInsight n100];
             stats := {| totalTrades := 0; winRate := n0; avgProfit := n0;
                         avgLoss := n0; profitFactor := n0 |} |}.
Proof.
  split; [|struct_eval].
  rewrite analyzeTrades_realized. unfold realized.
  destruct (groupBySymbol empty trades) as [o|]; [|reflexivity].
  cbn [option_map insights fst snd]. f_equal.
  rewrite !filter_app, filter_strategy_lossAversion,
    filter_strategy_overtrading, filter_strategy_recency,
    filter_strategy_confirmation, filter_strategy_strategy.
  reflexivity.
Qed.

(** The rounded rate of the stats can reach [40] while the rate the rule
    reads is still below it. *)
Lemma rounded_win_rate_may_differ :
  let ps := repeat n10 999 in
  let ls := repeat n10 1501 in
  (winRateOf ps ls <? n40)%num = true
  /\ winRate (tradeStatsOf 2500 ps ls) = n40.
Proof.
  split; [vm_compute; reflexivity | num_eval].
Qed.

Section ReportedWinRate.

Import PrimFloat.

(** C6, as stated, fails when [winRate] is the win rate of the returned
    stats.  On a buy of 403 at 10 followed by 161 sells of one at 11 and 242
    sells of one at 9 there are 161 profit events and 242 loss events.  The
    rate the rule reads is [161 / 403 * 100], about [39.9504]: above [39.95]
    and below [40], also in binary64.  The stats report it rounded to one
    decimal, [40], which is not below [40]; yet the insight is emitted, and
    its metric is about [60.0496], not [100 - 40]. *)
Lemma strategy_rule_reads_unrounded_win_rate :
  exists a : Analysis,
    analyzeTrades noDate fortyPercentRun = Some a
    /\ realized fortyPercentRun
       = Some (repeat (Num.of_Z 1) 161, repeat (Num.of_Z 1) 242)
    /\ winRate (stats a) = n40
    /\ (winRate (stats a) <? n40)%num = false
    /\ In (strategyInsight (Fin (Q2Qc (24200 # 403)))) (insights a)
    /\ Fin (Q2Qc (24200 # 403)) <> Num.sub n100 (winRate (stats a))
    /\ (let w := B64.winRateOf B64.manyProfits B64.manyLosses in
        PrimFloat.ltb 39.9501953125 w = true
        /\ PrimFloat.ltb w 40 = true
        /\ PrimFloat.ltb 60 (PrimFloat.sub 100 w) = true
        /\ PrimFloat.ltb (PrimFloat.sub 100 w) 60.0498046875 = true).
Proof.
  assert (E : realized fortyPercentRun
              = Some (repeat (Num.of_Z 1) 161, repeat (Num.of_Z 1) 242))
    by struct_eval.
  pose proof (analyzeTrades_realized noDate fortyPercentRun) as A.
  pose proof E as E'. unfold realized in E'.
  destruct (groupBySymbol empty fortyPercentRun) as [o|]; [|discriminate].
  assert (R : realize (values o)
              = (repeat (Num.of_Z 1) 161, repeat (Num.of_Z 1) 242))
    by congruence.
  rewrite R in A. cbv zeta in A. cbn [fst snd] in A.
  eexists. split; [exact A|]. split; [exact E|].
  cbn [stats insights winRate tradeStatsOf].
  split; [num_eval|]. split; [vm_compute; reflexivity|].
  split; [|split].
  - rewrite !in_app_iff. do 4 right. unfold strategy.
    assert (C : (winRateOf (repeat (Num.of_Z 1) 161)
                   (repeat (Num.of_Z 1) 242) <? n40)%num = true)
      by (vm_compute; reflexivity).
    rewrite C. left. unfold strategyInsight. f_equal; num_eval.
  - intros H.
    apply (f_equal (fun x => Num.eqb x (Num.of_Z 60))) in H.
    vm_compute in H. discriminate.
  - cbv zeta. split; [reflexivity|]. split; [reflexivity|].
    split; reflexivity.
Qed.

End ReportedWinRate.

(** ** Bounds on the statistics *)

Lemma toFixed1_range (w : Qc) :
  (Q2Qc 0 <= w)%Qc -> (w <= Q2Qc (inject_Z 100))%Qc ->
  exists r, toFixed1 (Fin w) = Fin r
            /\ (Q2Qc 0 <= r)%Qc /\ (r <= Q2Qc (inject_Z 100))%Qc.
Proof.
  intros H0 H1. unfold toFixed1.
  rewrite (is_neg_false w H0).
  assert (E0 : (0 <= w)%Q) by (qc2q; exact H0).
  assert (E1 : (w <= 100)%Q) by (qc2q; exact H1).
  assert (Ea : (Qabs w == w)%Q) by (now apply Qabs_pos).
  destruct (Qle_bool (inject_Z (10 ^ 21)) (Qabs w)) eqn:B.
  - apply Qle_bool_iff in B. rewrite Ea in B.
    assert (100 < inject_Z (10 ^ 21))%Q by reflexivity. lra.
  - set (n := Qfloor (Qabs w * 10 + (1 # 2))).
    assert (Hn0 : (0 <= n)%Z).
    { change 0%Z with (Qfloor 0). apply Qfloor_resp_le. rewrite Ea. lra. }
    assert (Hn1 : (n <= 1000)%Z).
    { change 1000%Z with (Qfloor (1000 + (1 # 2))).
      apply Qfloor_resp_le. rewrite Ea. lra. }
    eexists. split; [reflexivity|]. qc2q. unfold Qle. simpl. lia.
Qed.

(** The part of C5 that holds on every run: the reported win rate is a
    number between [0] and [100], and the average profit is [0] or
    positive. *)
Lemma win_rate_and_average_profit_bounds (trades : list Trade)
      (ps ls : list num) :
  realized trades = Some (ps, ls) ->
  (exists r, winRate (tradeStatsOf (List.length trades) ps ls) = Fin r
             /\ (Q2Qc 0 <= r)%Qc /\ (r <= Q2Qc (inject_Z 100))%Qc)
  /\ nonneg (avgProfit (tradeStatsOf (List.length trades) ps ls)).
Proof.
  intros H. split.
  - cbn [winRate tradeStatsOf].
    destruct (winRateOf_range ps ls) as [w [-> [H0 H1]]].
    now apply toFixed1_range.
  - cbn [avgProfit tradeStatsOf]. unfold nonneg.
    destruct (average_profit_cases ps (realized_profits_positive _ _ _ H))
      as [->|P]; [reflexivity|].
    apply positive_cases in P. destruct P as [->|[q [-> Hq]]]; [reflexivity|].
    unfold geb, n0, of_Z. apply leb_Fin. now apply Qclt_le_weak.
Qed.

(** C5, on the code.  All quantities and prices below are finite and not
    negative, yet the zero-quantity buy turns the average cost into NaN, the
    later sell realises NaN, which is filed as a loss, and the average loss
    is NaN: [avgLoss >= 0] fails. *)
Theorem average_loss_nan_on_non_negative_input (getTime : string -> num) :
  let trades := [ buyOf "2024-01-01" "ACME" 0 10;
                  buyOf "2024-01-02" "ACME" 10 10;
                  sellOf "2024-01-03" "ACME" 10 15 ] in
  nonNegativeFinite trades = true
  /\ realized trades = Some ([], [NaN])
  /\ option_map (fun a => avgLoss (stats a)) (analyzeTrades getTime trades)
     = Some NaN
  /\ (NaN >=? n0)%num = false.
Proof.
  intros trades.
  assert (R : realized trades = Some ([], [NaN])) by (vm_compute; reflexivity).
  split; [reflexivity|]. split; [exact R|]. split; [|reflexivity].
  pose proof (analyzeTrades_stats getTime trades) as S.
  rewrite R in S. cbn [option_map fst snd] in S.
  destruct (analyzeTrades getTime trades) as [a|]; [|discriminate].
  cbn [option_map] in *. inversion S as [E]. now rewrite E.
Qed.

(** ** The other scenarios of the specification, as checks of the model *)

(** Scenario B: buy 10 at 10, sell 5 at 5, sell 5 at 8. *)
Example scenario_B :
  analyzeTrades noDate
    [buyOf "d1" "ACME" 10 10; sellOf "d2" "ACME" 5 5; sellOf "d3" "ACME" 5 8]
  = Some {| insights := [ insightOf "Loss Aversion Bias" high n100;
                          insightOf "Confirmation Bias" low n100;
                          insightOf "Strategy Effectiveness" high n100 ];
            stats := {| totalTrades := 3; winRate := n0; avgProfit := n0;
                        avgLoss := Fin (Q2Qc (35 # 2));
                        profitFactor := n0 |} |}
  /\ realized
       [buyOf "d1" "ACME" 10 10; sellOf "d2" "ACME" 5 5; sellOf "d3" "ACME" 5 8]
     = Some ([], [of_Z 25; of_Z 10]).
Proof. split; struct_eval. Qed.

(** Scenario C: nine trades on one symbol. *)
Example scenario_C :
  option_map insights
    (analyzeTrades noDate (repeat (buyOf "d" "AAPL" 1 1) 9))
  = Some [ insightOf "Overtrading Bias" medium (of_Z 90);
           insightOf "Confirmation Bias" low n100;
           insightOf "Strategy Effectiveness" high n100 ].
Proof. struct_eval. Qed.

(** Scenario E: one trade. *)
Example scenario_E :
  option_map insights (analyzeTrades noDate [buyOf "d" "AAPL" 1 1])
  = Some [ insightOf "Recency Bias" medium n100;
           insightOf "Confirmation Bias" low n100;
           insightOf "Strategy Effectiveness" high n100 ].
Proof. struct_eval. Qed.

(** A symbol that names an inherited property makes the engine throw. *)
Example inherited_symbol_throws :
  analyzeTrades noDate [buyOf "d" "toString" 1 1] = None.
Proof. reflexivity. Qed.

(** * Further properties of the engine *)

(** ** The grouping is a stable partition *)

Lemma insert_index_perm {A : Type} (n : N) (v : A) (l : list (N * A)) :
  Permutation (map snd (insert_index n v l)) (v :: map snd l).
Proof.
  induction l as [|[m u] r IH]; simpl; [reflexivity|].
  destruct (n <=? m)%N; simpl; [reflexivity|].
  rewrite IH. apply perm_swap.
Qed.

Lemma values_perm {A : Type} (o : obj A) :
  Permutation (values o) (map snd o).
Proof.
  unfold values. induction o as [|[k v] r IH]; simpl; [reflexivity|].
  destruct (array_index k); simpl.
  - rewrite insert_index_perm. simpl. now rewrite IH.
  - rewrite <- Permutation_middle. now rewrite IH.
Qed.

Lemma concat_perm {A : Type} (l l' : list (list A)) :
  Permutation l l' -> Permutation (List.concat l) (List.concat l').
Proof.
  intros H. induction H; simpl.
  - reflexivity.
  - now rewrite IHPermutation.
  - rewrite !app_assoc. apply Permutation_app_tail, Permutation_app_comm.
  - now rewrite IHPermutation1.
Qed.

Lemma concat_set_present {A : Type} (o : obj (list A)) (k : string)
      (l x : list A) :
  get_own o k = Some l ->
  Permutation (List.concat (map snd (set o k (l ++ x))))
              (List.concat (map snd o) ++ x).
Proof.
  induction o as [|[k' v'] r IH]; simpl; [discriminate|].
  destruct (String.eqb k k'); simpl.
  - intros H. inversion H. subst v'.
    rewrite <- !app_assoc. apply Permutation_app_head, Permutation_app_comm.
  - intros H. rewrite <- app_assoc. apply Permutation_app_head. now apply IH.
Qed.

Lemma concat_set_absent {A : Type} (o : obj (list A)) (k : string)
      (x : list A) :
  get_own o k = None ->
  List.concat (map snd (set o k x)) = List.concat (map snd o) ++ x.
Proof.
  induction o as [|[k' v'] r IH]; simpl.
  - intros _. now rewrite app_nil_r.
  - destruct (String.eqb k k'); [discriminate|]. simpl.
    intros H. now rewrite IH, app_assoc.
Qed.

Lemma groupTrade_concat (o o' : obj (list Trade)) (t : Trade) :
  groupTrade o t = Some o' ->
  Permutation (List.concat (map snd o')) (List.concat (map snd o) ++ [t]).
Proof.
  unfold groupTrade, get.
  destruct (get_own o (symbol t)) as [l|] eqn:E.
  - intros H. inversion H. now apply concat_set_present.
  - destruct (is_inherited (symbol t)); [discriminate|].
    intros H. inversion H. simpl. now rewrite concat_set_absent.
Qed.

Lemma groupBySymbol_concat (trades : list Trade) (o o' : obj (list Trade)) :
  groupBySymbol o trades = Some o' ->
  Permutation (List.concat (map snd o')) (List.concat (map snd o) ++ trades).
Proof.
  revert o. induction trades as [|t r IH]; intros o H; simpl in H.
  - inversion H. now rewrite app_nil_r.
  - destruct (groupTrade o t) as [o1|] eqn:E; [|discriminate].
    rewrite (IH o1 H), (groupTrade_concat o o1 t E), <- app_assoc.
    reflexivity.
Qed.

Lemma groups_partition (trades : list Trade) (o : obj (list Trade)) :
  groupBySymbol empty trades = Some o ->
  Permutation (List.concat (values o)) trades.
Proof.
  intros H. rewrite (concat_perm _ _ (values_perm o)).
  now rewrite (groupBySymbol_concat trades empty o H).
Qed.

Lemma groups_cover (trades : list Trade) (o : obj (list Trade)) (t : Trade) :
  groupBySymbol empty trades = Some o -> In t trades ->
  In (bySymbol (symbol t) trades) (values o).
Proof.
  intros H Ht.
  destruct (groupBySymbol_groupsOf trades [] empty o) as [_ [K G]]; trivial.
  { split; [constructor|]. split; intros; contradiction. }
  simpl in K, G. apply K in Ht. apply in_map_iff in Ht.
  destruct Ht as [[k l] [E Hin]]. simpl in E. subst k.
  rewrite <- (G _ _ Hin).
  apply (Permutation_in _ (Permutation_sym (values_perm o))).
  apply in_map_iff. now exists (symbol t, l).
Qed.

Lemma bySymbol_In (k : string) (trades : list Trade) (t : Trade) :
  In t (bySymbol k trades) -> In t trades /\ symbol t = k.
Proof.
  unfold bySymbol. intros H. apply filter_In in H. destruct H as [H E].
  split; trivial. now apply String.eqb_eq.
Qed.

(** X2. When the grouping completes, the lists the outer loop replays form
    a partition of the input that keeps the input order: together they hold
    exactly the input trades, each list is the full sub-sequence of one
    symbol's trades in input order, every trade's symbol has its list, and
    there are as many lists as keys. *)
Theorem grouping_is_a_stable_partition (trades : list Trade)
        (o : obj (list Trade)) :
  groupBySymbol empty trades = Some o ->
  Permutation (List.concat (values o)) trades
  /\ (forall l, In l (values o) -> exists k, l = bySymbol k trades)
  /\ (forall t, In t trades -> In (bySymbol (symbol t) trades) (values o))
  /\ List.length (values o) = key_count o.
Proof.
  intros H. split; [now apply groups_partition|]. split; [|split].
  - intros l Hl. now apply (groups_are_symbol_subsequences trades o).
  - intros t Ht. now apply groups_cover.
  - rewrite (Permutation_length (values_perm o)). apply length_map.
Qed.

Lemma grouping_is_a_stable_partition_witness :
  Permutation
    (List.concat (values [("B", [buyOf "d1" "B" 1 1; sellOf "d3" "B" 1 2]);
                     ("7", [buyOf "d2" "7" 1 1])]))
    [buyOf "d1" "B" 1 1; buyOf "d2" "7" 1 1; sellOf "d3" "B" 1 2].
Proof.
  apply (grouping_is_a_stable_partition
           [buyOf "d1" "B" 1 1; buyOf "d2" "7" 1 1; sellOf "d3" "B" 1 2]).
  reflexivity.
Defined.

(** ** Events and sells *)

Lemma replayTrade_events (st : Replay) (t : Trade) :
  (events (replayTrade st t)
   <= events st + (if isSell t then 1 else 0))%nat.
Proof.
  unfold events. destruct (isBuy t) eqn:Hb.
  - rewrite replayTrade_buy by exact Hb. simpl. lia.
  - destruct (isSell t) eqn:Hs.
    + rewrite replayTrade_sell by exact Hs.
      destruct (position st >? n0)%num; [|lia].
      cbn [profits losses].
      destruct (sellPnl st t >? n0)%num; rewrite length_app; simpl; lia.
    + rewrite replayTrade_other by trivial. lia.
Qed.

Lemma replayFrom_events (l : list Trade) (st : Replay) :
  (events (replayFrom st l) <= events st + sellCount l)%nat.
Proof.
  revert st. induction l as [|t r IH]; intros st.
  - unfold sellCount. simpl. lia.
  - change (replayFrom st (t :: r)) with (replayFrom (replayTrade st t) r).
    pose proof (IH (replayTrade st t)) as H1.
    pose proof (replayTrade_events st t) as H2.
    unfold sellCount in *. simpl. destruct (isSell t); simpl; lia.
Qed.

Lemma sellCount_app (l l' : list Trade) :
  sellCount (l ++ l') = (sellCount l + sellCount l')%nat.
Proof. unfold sellCount. now rewrite filter_app, length_app. Qed.

Lemma realize_events (groups : list (list Trade))
      (pl : list num * list num) :
  let out := fold_left replaySymbol groups pl in
  (List.length (fst out) + List.length (snd out)
   <= List.length (fst pl) + List.length (snd pl)
      + sellCount (List.concat groups))%nat.
Proof.
  revert pl. induction groups as [|g r IH]; intros pl;
    cbn [fold_left List.concat]; cbv zeta.
  - unfold sellCount. simpl. lia.
  - pose proof (IH (replaySymbol pl g)) as H1. cbv zeta in H1.
    pose proof (replayFrom_events g (startOfSymbol (fst pl) (snd pl))) as H2.
    change (events (replayFrom (startOfSymbol (fst pl) (snd pl)) g))
      with (List.length (fst (replaySymbol pl g))
            + List.length (snd (replaySymbol pl g)))%nat in H2.
    change (events (startOfSymbol (fst pl) (snd pl)))
      with (List.length (fst pl) + List.length (snd pl))%nat in H2.
    rewrite sellCount_app. lia.
Qed.

Lemma sellCount_perm (l l' : list Trade) :
  Permutation l l' -> sellCount l = sellCount l'.
Proof.
  intros H. unfold sellCount.
  induction H; simpl; trivial.
  - destruct (isSell x); simpl; now rewrite IHPermutation.
  - destruct (isSell x), (isSell y); reflexivity.
  - congruence.
Qed.

(** X3. A run records at most one profit or loss event per sell of the
    input: the two lists together are never longer than the number of
    sells.  In particular an input without any sell yields no event. *)
Theorem events_bounded_by_sells (trades : list Trade) (ps ls : list num) :
  realized trades = Some (ps, ls) ->
  (List.length ps + List.length ls <= sellCount trades)%nat
  /\ (sellCount trades = 0%nat -> ps = [] /\ ls = []).
Proof.
  unfold realized.
  destruct (groupBySymbol empty trades) as [o|] eqn:G; [|discriminate].
  intros H. inversion H as [E].
  pose proof (realize_events (values o) ([], [])) as B.
  simpl in B. fold (realize (values o)) in B. rewrite E in B. simpl in B.
  rewrite (sellCount_perm _ _ (groups_partition trades o G)) in B.
  split; [exact B|].
  intros Z. rewrite Z in B.
  destruct ps, ls; simpl in B; try lia. now split.
Qed.

Lemma events_bounded_by_sells_witness :
  (List.length [of_Z 50] + List.length (@nil num)
   <= sellCount [buyOf "2024-01-02" "ACME" 10 10;
                 sellOf "2024-01-03" "ACME" 10 15])%nat.
Proof.
  apply (events_bounded_by_sells
           [buyOf "2024-01-02" "ACME" 10 10; sellOf "2024-01-03" "ACME" 10 15]
           [of_Z 50] []).
  vm_compute. reflexivity.
Defined.

(** ** Trades the inner loop skips *)

(** X4. A trade whose action is neither a buy nor a sell (whatever the
    letter case) changes nothing in a symbol's pass: replaying a list gives
    the same position, average cost, profits and losses as replaying it
    without such trades. *)
Theorem unrecognised_actions_are_ignored (st : Replay) (l : list Trade) :
  replayFrom st l = replayFrom st (filter recognised l).
Proof.
  revert st. induction l as [|t r IH]; intros st; [reflexivity|].
  change (replayFrom st (t :: r)) with (replayFrom (replayTrade st t) r).
  simpl. unfold recognised at 1.
  destruct (isBuy t) eqn:Hb; simpl.
  - apply IH.
  - destruct (isSell t) eqn:Hs; simpl.
    + apply IH.
    + rewrite replayTrade_other by trivial. apply IH.
Qed.

(** ** Positions that realise nothing *)

Lemma add_NaN_l (x : num) : add NaN x = NaN.
Proof. reflexivity. Qed.

Lemma replayTrade_nan_position (st : Replay) (t : Trade) :
  position st = NaN ->
  position (replayTrade st t) = NaN
  /\ profits (replayTrade st t) = profits st
  /\ losses (replayTrade st t) = losses st.
Proof.
  intros E. destruct (isBuy t) eqn:Hb.
  - rewrite replayTrade_buy by exact Hb. cbn [position profits losses].
    now rewrite E.
  - destruct (isSell t) eqn:Hs.
    + rewrite replayTrade_sell by exact Hs. rewrite E.
      change (NaN >? n0)%num with false. cbv iota. now rewrite E.
    + rewrite replayTrade_other by trivial. now rewrite E.
Qed.

Lemma replayFrom_nan_position (l : list Trade) (st : Replay) :
  position st = NaN ->
  position (replayFrom st l) = NaN
  /\ profits (replayFrom st l) = profits st
  /\ losses (replayFrom st l) = losses st.
Proof.
  revert st. induction l as [|t r IH]; intros st E; [now split|].
  change (replayFrom st (t :: r)) with (replayFrom (replayTrade st t) r).
  destruct (replayTrade_nan_position st t E) as [E1 [E2 E3]].
  destruct (IH (replayTrade st t) E1) as [F1 [F2 F3]].
  now rewrite F1, F2, F3, E2, E3.
Qed.

Lemma add_NaN_r (x : num) : add x NaN = NaN.
Proof. now destruct x. Qed.

(** X5. A buy whose quantity is NaN (an unreadable quantity cell) turns the
    position of its symbol into NaN, and the rest of that symbol's pass then
    records nothing: every later sell fails the test [position > 0], and
    later buys keep the position NaN. *)
Theorem nan_quantity_buy_silences_the_symbol (st : Replay) (t : Trade)
        (rest : list Trade) :
  isBuy t = true -> quantity t = NaN ->
  position (replayFrom st (t :: rest)) = NaN
  /\ profits (replayFrom st (t :: rest)) = profits st
  /\ losses (replayFrom st (t :: rest)) = losses st.
Proof.
  intros Hb Hq.
  change (replayFrom st (t :: rest)) with (replayFrom (replayTrade st t) rest).
  assert (E : position (replayTrade st t) = NaN).
  { rewrite replayTrade_buy by exact Hb. cbn [position].
    rewrite Hq. apply add_NaN_r. }
  destruct (replayFrom_nan_position rest _ E) as [F1 [F2 F3]].
  rewrite F1, F2, F3. rewrite replayTrade_buy by exact Hb.
  now cbn [profits losses].
Qed.

Lemma nan_quantity_buy_silences_the_symbol_witness :
  profits (replayFrom (startOfSymbol [] [])
             [mkTrade "d1" "ACME" "buy" NaN n10;
              buyOf "d2" "ACME" 10 10; sellOf "d3" "ACME" 10 15])
  = [].
Proof.
  exact (proj1 (proj2 (nan_quantity_buy_silences_the_symbol
                         (startOfSymbol [] [])
                         (mkTrade "d1" "ACME" "buy" NaN n10)
                         [buyOf "d2" "ACME" 10 10; sellOf "d3" "ACME" 10 15]
                         eq_refl eq_refl))).
Defined.

(** X6. While the position is not strictly positive, nothing but a buy
    changes the state: any run of sells and unrecognised trades met on a
    position [<= 0] leaves position, average cost, profits and losses as
    they are, so a sold-out or oversold symbol realises nothing until it is
    bought again. *)
Theorem no_position_no_event (st : Replay) (l : list Trade) :
  (position st <=? n0)%num = true ->
  forallb (fun t => negb (isBuy t)) l = true ->
  replayFrom st l = st.
Proof.
  intros Hp. induction l as [|t r IH]; intros Hl; [reflexivity|].
  simpl in Hl. apply Bool.andb_true_iff in Hl. destruct Hl as [Hb Hr].
  apply Bool.negb_true_iff in Hb.
  change (replayFrom st (t :: r)) with (replayFrom (replayTrade st t) r).
  assert (E : replayTrade st t = st).
  { destruct (isSell t) eqn:Hs.
    - rewrite replayTrade_sell by exact Hs.
      now rewrite (leb_not_gtb _ _ Hp).
    - now apply replayTrade_other. }
  rewrite E. now apply IH.
Qed.

Lemma no_position_no_event_witness :
  let st := replayFrom (startOfSymbol [] [])
              [buyOf "d1" "ACME" 5 10; sellOf "d2" "ACME" 10 12] in
  replayFrom st [sellOf "d3" "ACME" 1 20; mkTrade "d4" "ACME" "hold" n10 n10]
  = st.
Proof.
  apply (no_position_no_event
           (replayFrom (startOfSymbol [] [])
              [buyOf "d1" "ACME" 5 10; sellOf "d2" "ACME" 10 12])
           [sellOf "d3" "ACME" 1 20; mkTrade "d4" "ACME" "hold" n10 n10]);
    reflexivity.
Defined.

(** ** A buy on a position that is not negative *)

Lemma Qc_sum_pos (a b : Qc) :
  (Q2Qc 0 <= a)%Qc -> (Q2Qc 0 < b)%Qc -> (Q2Qc 0 < a + b)%Qc.
Proof. intros Ha Hb. qc2q. lra. Qed.

Lemma buy_step (st : Replay) (t : Trade) (Q A q p : Qc) :
  isBuy t = true -> quantity t = Fin q -> price t = Fin p ->
  position st = Fin Q -> avgCost st = Fin A ->
  (Q2Qc 0 <= Q)%Qc -> (Q2Qc 0 < q)%Qc ->
  replayTrade st t =
  {| position := Fin (Q + q);
     avgCost := Fin ((A * Q + p * q) / (Q + q));
     profits := profits st;
     losses := losses st |}.
Proof.
  intros Hb Hq Hp HQ HA Q0 q0. rewrite replayTrade_buy by exact Hb.
  rewrite Hq, Hp, HQ, HA. unfold mul, add, div.
  now rewrite (is_zero_false _ (Qc_zero_lt_neq _ (Qc_sum_pos Q q Q0 q0))).
Qed.

(** ** A buy followed by a sell of the same quantity *)

Lemma Qc_first_cost (p q : Qc) :
  (Q2Qc 0 < q)%Qc ->
  ((Q2Qc 0 * Q2Qc 0 + p * q) / (Q2Qc 0 + q))%Qc = p.
Proof.
  intros Hq. field. replace (Q2Qc 0 + q)%Qc with q by ring.
  now apply Qc_zero_lt_neq.
Qed.

Lemma Qc_gain_pos (p p' q : Qc) :
  (Q2Qc 0 < q)%Qc ->
  ((Q2Qc 0 < (p' + - p) * q)%Qc <-> (p < p')%Qc).
Proof.
  intros Hq. split; intros H.
  - destruct (Qclt_le_dec p p') as [L|L]; trivial. exfalso.
    assert (N : ((p' + - p) * q <= Q2Qc 0 * q)%Qc).
    { apply Qcmult_le_compat_r; [|now apply Qclt_le_weak].
      qc2q. lra. }
    rewrite Qcmult_0_l in N. now apply Qcle_not_lt in N.
  - rewrite <- (Qcmult_0_l q). apply Qcmult_lt_compat_r; trivial.
    qc2q. lra.
Qed.

Lemma min_same (q : Qc) : min (Fin q) (Fin q) = Fin q.
Proof.
  unfold min. destruct (Fin q <? Fin q)%num eqn:E; trivial.
Qed.

Lemma abs_of_loss (p p' q : Qc) :
  (Q2Qc 0 < q)%Qc -> (p' <= p)%Qc ->
  abs (Fin ((p' + - p) * q)) = Fin ((p + - p') * q).
Proof.
  intros Hq H. unfold abs. f_equal.
  destruct (is_neg ((p' + - p) * q)) eqn:N; [ring|].
  destruct (Qcle_lt_or_eq _ _ H) as [L|E].
  - exfalso. apply (Qc_gain_pos p' p q Hq) in L.
    assert (M : ((p' + - p) * q < Q2Qc 0)%Qc).
    { replace ((p' + - p) * q)%Qc with (- ((p + - p') * q))%Qc by ring.
      qc2q. lra. }
    apply is_neg_spec in M. congruence.
  - subst p'. ring.
Qed.

(** The replay of a buy and a sell of the same quantity, in exact
    arithmetic. *)
Lemma round_trip_exact (d1 d2 s : string) (q p p' : Qc) :
  is_inherited s = false -> (Q2Qc 0 < q)%Qc ->
  realized [ mkTrade d1 s "buy" (Fin q) (Fin p);
             mkTrade d2 s "sell" (Fin q) (Fin p') ]
  = Some (if (Fin p <? Fin p')%num
          then ([Fin ((p' + - p) * q)], [])
          else ([], [Fin ((p + - p') * q)])).
Proof.
  intros Hs Hq. unfold realized.
  rewrite groupBySymbol_pair by (trivial; reflexivity).
  cbn [symbol]. rewrite values_single. f_equal.
  unfold realize. cbn [fold_left]. unfold replaySymbol. cbn [fst snd].
  set (b := mkTrade d1 s "buy" (Fin q) (Fin p)).
  set (t := mkTrade d2 s "sell" (Fin q) (Fin p')).
  change (replayFrom (startOfSymbol [] []) [b; t])
    with (replayTrade (replayTrade (startOfSymbol [] []) b) t).
  rewrite (buy_step (startOfSymbol [] []) b (Q2Qc 0) (Q2Qc 0) q p)
    by (trivial; apply Qcle_refl).
  rewrite (Qc_first_cost p q Hq), Qcplus_0_l.
  cbn [profits losses startOfSymbol].
  rewrite replayTrade_sell by reflexivity.
  cbn [position].
  assert (Pq : (Fin q >? n0)%num = true).
  { apply positive_cases. right. now exists q. }
  rewrite Pq. unfold sellPnl. cbn [price quantity avgCost position t].
  rewrite min_same. unfold sub, neg, add, mul. cbn [profits losses].
  destruct (Fin p <? Fin p')%num eqn:L.
  - apply ltb_Fin in L. apply (Qc_gain_pos p p' q Hq) in L.
    assert (G : (Fin ((p' + - p) * q) >? n0)%num = true).
    { apply positive_cases. right. eexists. split; [reflexivity | exact L]. }
    now rewrite G.
  - assert (G : (Fin ((p' + - p) * q) >? n0)%num = false).
    { destruct (Fin ((p' + - p) * q) >? n0)%num eqn:G; trivial.
      apply positive_cases in G. destruct G as [G|[x [E G]]]; [discriminate|].
      inversion E; subst x. apply (Qc_gain_pos p p' q Hq) in G.
      apply ltb_Fin in G. congruence. }
    rewrite G. cbn [app]. rewrite abs_of_loss; trivial.
    apply Qcnot_lt_le. intros C. apply ltb_Fin in C. congruence.
Qed.

Lemma of_Z_ltb (a b : Z) : (of_Z a <? of_Z b)%num = (a <? b)%Z.
Proof.
  unfold of_Z. apply Bool.eq_iff_eq_true.
  rewrite ltb_Fin, Z.ltb_lt. qc2q. now rewrite <- Zlt_Qlt.
Qed.

Lemma of_Z_gain (a b q : Z) :
  ((Q2Qc (inject_Z a) + - Q2Qc (inject_Z b)) * Q2Qc (inject_Z q))%Qc
  = Q2Qc (inject_Z ((a - b) * q)).
Proof.
  apply Qc_is_canon. qc2q.
  rewrite inject_Z_mult. unfold Z.sub.
  now rewrite inject_Z_plus, inject_Z_opp.
Qed.

(** X8. For a symbol with a plain name, a buy of a whole quantity [q > 0]
    at a whole price [p >= 0] followed by a sell of the same quantity at a
    whole price [p' >= 0] yields exactly one event of size [|p' - p| * q]:
    a profit when [p < p'], and otherwise (also at the same price) a loss.
    The quantity and the two amounts [q * p] and [q * p'] are at most
    [2^53]: every value the replay computes on the way (the amount paid, the
    position, the average cost [q * p / q = p], the price difference and the
    event) is then a whole number of magnitude at most [2^53], which binary64
    holds exactly, so that no operation rounds. *)
Theorem round_trip_of_whole_numbers (d1 d2 s : string) (q p p' : Z) :
  is_inherited s = false ->
  (0 < q <= 2 ^ 53)%Z -> (0 <= p)%Z -> (0 <= p')%Z ->
  (q * p <= 2 ^ 53)%Z -> (q * p' <= 2 ^ 53)%Z ->
  realized [buyOf d1 s q p; sellOf d2 s q p']
  = Some (if (p <? p')%Z
          then ([of_Z ((p' - p) * q)], [])
          else ([], [of_Z ((p - p') * q)])).
Proof.
  intros Hs [Hq _] _ _ _ _. unfold buyOf, sellOf, of_Z.
  rewrite (round_trip_exact d1 d2 s (Q2Qc (inject_Z q)) (Q2Qc (inject_Z p))
             (Q2Qc (inject_Z p')) Hs).
  - change (Fin (Q2Qc (inject_Z p)) <? Fin (Q2Qc (inject_Z p')))%num
      with (of_Z p <? of_Z p')%num.
    now rewrite of_Z_ltb, !of_Z_gain.
  - qc2q. change 0%Q with (inject_Z 0). now rewrite <- Zlt_Qlt.
Qed.

Lemma round_trip_of_whole_numbers_witness :
  realized [buyOf "d1" "ACME" 3 21; sellOf "d2" "ACME" 3 16]
  = Some ([], [of_Z 15]).
Proof.
  apply (round_trip_of_whole_numbers "d1" "d2" "ACME" 3 21 16);
    first [reflexivity | lia].
Defined.

(** ** Ratios of counts against whole thresholds *)

Lemma Q_lt_ratio (c a b : Q) :
  (0 < b)%Q -> ((c < a / b)%Q <-> (c * b < a)%Q).
Proof.
  intros Hb. rewrite <- (Qmult_lt_r c (a / b) b Hb).
  assert (E : (a / b * b == a)%Q) by (field; lra).
  now rewrite E.
Qed.

Lemma Q_ratio_lt (c a b : Q) :
  (0 < b)%Q -> ((a / b < c)%Q <-> (a < c * b)%Q).
Proof.
  intros Hb. rewrite <- (Qmult_lt_r (a / b) c b Hb).
  assert (E : (a / b * b == a)%Q) by (field; lra).
  now rewrite E.
Qed.

Lemma inject_nat_pos (n : nat) :
  (0 < n)%nat -> (0 < inject_Z (Z.of_nat n))%Q.
Proof.
  intros H. change 0%Q with (inject_Z 0). rewrite <- Zlt_Qlt. lia.
Qed.

Lemma tradesPerSymbol_fin (a b : nat) :
  (0 < b)%nat ->
  tradesPerSymbol a b =
  Fin (Q2Qc (inject_Z (Z.of_nat a)) / Q2Qc (inject_Z (Z.of_nat b)))%Qc.
Proof.
  intros Hb. unfold tradesPerSymbol, of_nat, of_Z, div.
  now rewrite (is_zero_false _ (Qc_zero_lt_neq _ (Qc_of_nat_pos b Hb))).
Qed.

Lemma tradesPerSymbol_gtb (a b : nat) (c : Z) :
  (0 < b)%nat ->
  (tradesPerSymbol a b >? of_Z c)%num = (c * Z.of_nat b <? Z.of_nat a)%Z.
Proof.
  intros Hb. rewrite tradesPerSymbol_fin by exact Hb. unfold gtb, of_Z.
  apply Bool.eq_iff_eq_true. rewrite ltb_Fin, Z.ltb_lt.
  qc2q. fold (Qdiv (inject_Z (Z.of_nat a)) (inject_Z (Z.of_nat b))).
  rewrite (Q_lt_ratio _ _ _ (inject_nat_pos b Hb)).
  now rewrite <- inject_Z_mult, <- Zlt_Qlt.
Qed.

Lemma percent_as_ratio (k n : nat) :
  (inject_Z (Z.of_nat k) * / inject_Z (Z.of_nat n) * inject_Z 100
   == inject_Z (100 * Z.of_nat k) / inject_Z (Z.of_nat n))%Q.
Proof.
  rewrite inject_Z_mult. unfold Qdiv. ring.
Qed.

Lemma percent_gtb (k n : nat) (c : Z) :
  (0 < n)%nat ->
  (percent k n >? of_Z c)%num = (c * Z.of_nat n <? 100 * Z.of_nat k)%Z.
Proof.
  intros Hn. rewrite percent_fin by exact Hn. unfold gtb, of_Z.
  apply Bool.eq_iff_eq_true. rewrite ltb_Fin, Z.ltb_lt.
  qc2q. rewrite percent_as_ratio.
  rewrite (Q_lt_ratio _ _ _ (inject_nat_pos n Hn)).
  now rewrite <- inject_Z_mult, <- Zlt_Qlt.
Qed.

Lemma percent_ltb (k n : nat) (c : Z) :
  (0 < n)%nat ->
  (percent k n <? of_Z c)%num = (100 * Z.of_nat k <? c * Z.of_nat n)%Z.
Proof.
  intros Hn. rewrite percent_fin by exact Hn. unfold of_Z.
  apply Bool.eq_iff_eq_true. rewrite ltb_Fin, Z.ltb_lt.
  qc2q. rewrite percent_as_ratio.
  rewrite (Q_ratio_lt _ _ _ (inject_nat_pos n Hn)).
  now rewrite <- inject_Z_mult, <- Zlt_Qlt.
Qed.

(** ** The overtrading rule *)

Lemma min_cap_above (x : Qc) :
  (Q2Qc (inject_Z 100) <= x)%Qc -> min (Fin x) n100 = n100.
Proof.
  intros H. unfold min, n100, of_Z.
  destruct (Fin (Q2Qc (inject_Z 100)) <? Fin x)%num eqn:E; trivial.
  f_equal. apply Qcle_antisym; trivial.
  apply Qcnot_lt_le. intros C. apply ltb_Fin in C. congruence.
Qed.

Lemma min_cap_below (x : Qc) :
  (x < Q2Qc (inject_Z 100))%Qc -> min (Fin x) n100 = Fin x.
Proof.
  intros H. unfold min, n100, of_Z.
  destruct (Fin (Q2Qc (inject_Z 100)) <? Fin x)%num eqn:E; trivial.
  apply ltb_Fin in E. exfalso. apply (Qclt_not_le _ _ H).
  now apply Qclt_le_weak.
Qed.

Lemma tradesPerSymbol_times_ten (n keys : nat) :
  (0 < keys)%nat ->
  exists x, mul (tradesPerSymbol n keys) n10 = Fin x
            /\ ((Q2Qc (inject_Z 100) <= x)%Qc <-> (10 * keys <= n)%nat).
Proof.
  intros Hk. rewrite tradesPerSymbol_fin by exact Hk.
  unfold n10, of_Z, mul. eexists. split; [reflexivity|].
  pose proof (inject_nat_pos keys Hk) as Pk.
  qc2q. split; intros H.
  - destruct (Nat.le_gt_cases (10 * keys) n) as [L|L]; trivial. exfalso.
    assert (C : (inject_Z (Z.of_nat n) / inject_Z (Z.of_nat keys)
                 < inject_Z 10)%Q).
    { apply Q_ratio_lt; trivial. rewrite <- inject_Z_mult, <- Zlt_Qlt. lia. }
    unfold Qdiv in C. change (inject_Z 100) with 100%Q in H.
    change (inject_Z 10) with 10%Q in *. nra.
  - assert (C : ~ (inject_Z (Z.of_nat n) / inject_Z (Z.of_nat keys)
                   < inject_Z 10)%Q).
    { rewrite Q_ratio_lt by trivial.
      rewrite <- inject_Z_mult, <- Zlt_Qlt. lia. }
    apply Qnot_lt_le in C. unfold Qdiv in C.
    change (inject_Z 100) with 100%Q. change (inject_Z 10) with 10%Q in *.
    nra.
Qed.

(** The second rule in terms of the two counts it reads. *)
Lemma overtrading_by_counts (n keys : nat) :
  overtrading n keys =
  if (8 * keys <? n)%nat then
    [ insightOf "Overtrading Bias" medium
        (if (10 * keys <=? n)%nat then n100
         else mul (tradesPerSymbol n keys) n10) ]
  else [].
Proof.
  unfold overtrading, insightOf. destruct keys as [|k].
  - destruct n as [|n]; [reflexivity|].
    replace (tradesPerSymbol (S n) 0) with PosInf; [reflexivity|].
    unfold tradesPerSymbol, of_nat, of_Z, div.
    change (is_zero (Q2Qc (inject_Z (Z.of_nat 0)))) with true. cbv iota.
    rewrite (is_zero_false _ (Qc_zero_lt_neq _ (Qc_of_nat_pos (S n) ltac:(lia)))).
    now rewrite of_nat_not_neg.
  - assert (Hk : (0 < S k)%nat) by lia.
    change n8 with (of_Z 8). rewrite (tradesPerSymbol_gtb n (S k) 8 Hk).
    replace (8 * Z.of_nat (S k) <? Z.of_nat n)%Z with (8 * S k <? n)%nat.
    2:{ apply Bool.eq_iff_eq_true. rewrite Nat.ltb_lt, Z.ltb_lt. lia. }
    destruct (8 * S k <? n)%nat; [|reflexivity].
    destruct (tradesPerSymbol_times_ten n (S k) Hk) as [x [Ex Hx]].
    rewrite Ex. do 2 f_equal.
    destruct (10 * S k <=? n)%nat eqn:T.
    + apply Nat.leb_le in T. apply min_cap_above. now apply Hx.
    + apply Nat.leb_gt in T. apply min_cap_below.
      apply Qcnot_le_lt. intros C. apply Hx in C. lia.
Qed.

(** ** The confirmation rule *)

Lemma of_nat_inj (a b : nat) : of_nat a = of_nat b -> a = b.
Proof.
  unfold of_nat, of_Z. intros H.
  assert (E : Q2Qc (inject_Z (Z.of_nat a)) = Q2Qc (inject_Z (Z.of_nat b)))
    by congruence.
  apply Q2Qc_eq_iff in E. unfold Qeq in E. simpl in E. lia.
Qed.

Lemma of_nat_ltb (a b : nat) : (of_nat a <? of_nat b)%num = (a <? b)%nat.
Proof.
  unfold of_nat, of_Z. apply Bool.eq_iff_eq_true.
  rewrite ltb_Fin, Nat.ltb_lt. qc2q. rewrite <- Zlt_Qlt. lia.
Qed.

Lemma max_of_nat (a b : nat) : max (of_nat a) (of_nat b) = of_nat (Nat.max a b).
Proof.
  change (max (of_nat a) (of_nat b))
    with (if (of_nat a <? of_nat b)%num then of_nat b else of_nat a).
  rewrite of_nat_ltb. destruct (a <? b)%nat eqn:E.
  - apply Nat.ltb_lt in E. f_equal. lia.
  - apply Nat.ltb_ge in E. f_equal. lia.
Qed.

Lemma fold_max_of_nat (cs : list nat) (a : nat) :
  fold_left max (map of_nat cs) (of_nat a) = of_nat (fold_left Nat.max cs a).
Proof.
  revert a. induction cs as [|c r IH]; intros a; cbn [map fold_left]; trivial.
  now rewrite max_of_nat, IH.
Qed.

Lemma fold_nat_max_spec (cs : list nat) (a : nat) :
  let m := fold_left Nat.max cs a in
  (a <= m)%nat /\ (forall c, In c cs -> (c <= m)%nat) /\ (m = a \/ In m cs).
Proof.
  revert a. induction cs as [|c r IH]; intros a; simpl.
  - split; [lia|]. split; [tauto | now left].
  - destruct (IH (Nat.max a c)) as [H1 [H2 H3]]. split; [lia|]. split.
    + intros x [<-|Hx]; [lia | now apply H2].
    + destruct H3 as [H3|H3]; [|right; now right].
      rewrite H3.
      destruct (Nat.max_spec a c) as [[_ E]|[_ E]]; rewrite E;
        [right; now left | now left].
Qed.

Lemma counts_of (l : list num) :
  (forall v, In v l -> exists c, v = of_nat c) ->
  exists cs, l = map of_nat cs.
Proof.
  induction l as [|v r IH]; intros H.
  - now exists [].
  - destruct (H v (or_introl eq_refl)) as [c ->].
    destruct IH as [cs ->]; [intros w Hw; apply H; now right|].
    now exists (c :: cs).
Qed.

(** The largest count, for a non-empty list of counts. *)
Lemma max_list_of_counts (l : list num) :
  l <> [] -> (forall v, In v l -> exists c, v = of_nat c) ->
  exists m, max_list l = of_nat m /\ In (of_nat m) l
            /\ forall c, In (of_nat c) l -> (c <= m)%nat.
Proof.
  intros Hne H. destruct (counts_of l H) as [cs ->].
  destruct cs as [|c r]; [contradiction|].
  unfold max_list. cbn [map fold_left].
  change (max NegInf (of_nat c)) with (of_nat c).
  rewrite fold_max_of_nat.
  destruct (fold_nat_max_spec r c) as [H1 [H2 H3]].
  set (m := fold_left Nat.max r c) in *.
  exists m. split; trivial. split.
  - destruct H3 as [->|H3]; [now left|]. right. now apply in_map.
  - intros x [E|Hx].
    + apply of_nat_inj in E. lia.
    + apply in_map_iff in Hx. destruct Hx as [y [E Hy]].
      apply of_nat_inj in E. subst y. now apply H2.
Qed.

Lemma symbolCount_snoc (k : string) (done : list Trade) (t : Trade) :
  symbolCount k (done ++ [t]) =
  (symbolCount k done + (if String.eqb (symbol t) k then 1 else 0))%nat.
Proof.
  unfold symbolCount. rewrite bySymbol_snoc, length_app.
  now destruct (String.eqb (symbol t) k).
Qed.

Lemma countSymbol_freqOf (done : list Trade) (o : obj num) (t : Trade) :
  freqOf done o -> freqOf (done ++ [t]) (countSymbol o t).
Proof.
  intros [ND [Hk Hc]]. unfold countSymbol.
  set (v := add _ (of_Z 1)).
  assert (Ev : v = of_nat (symbolCount (symbol t) (done ++ [t]))).
  { subst v. rewrite symbolCount_snoc, String.eqb_refl. unfold get.
    destruct (get_own o (symbol t)) as [c|] eqn:E.
    - apply get_own_Some_In in E. destruct (Hc _ _ E) as [-> _].
      change (or_zero (of_nat (symbolCount (symbol t) done)))
        with (of_nat (symbolCount (symbol t) done)).
      change (of_Z 1) with (of_nat 1). now rewrite add_of_nat.
    - assert (Z : symbolCount (symbol t) done = 0%nat).
      { unfold symbolCount. rewrite bySymbol_absent; trivial.
        intros u Hu Eu. apply (get_own_None_keys o (symbol t) E).
        rewrite <- Eu. now apply Hk. }
      rewrite Z. destruct (is_inherited (symbol t)); apply add_n0_l. }
  split; [now apply set_NoDup|]. split.
  - intros u Hu. apply in_app_or in Hu. destruct Hu as [Hu|[<-|[]]].
    + apply set_keeps_keys. now apply Hk.
    + apply set_adds_key.
  - intros k c Hin. apply set_In_nodup in Hin; trivial.
    destruct Hin as [[-> ->]|[N Hin]].
    + split; [exact Ev|]. rewrite symbolCount_snoc, String.eqb_refl. lia.
    + destruct (Hc _ _ Hin) as [-> P]. rewrite symbolCount_snoc.
      replace (String.eqb (symbol t) k) with false.
      * now rewrite Nat.add_0_r.
      * symmetry. apply String.eqb_neq. congruence.
Qed.

Lemma fold_countSymbol_freqOf (trades done : list Trade) (o : obj num) :
  freqOf done o -> freqOf (done ++ trades) (fold_left countSymbol trades o).
Proof.
  revert done o. induction trades as [|t r IH]; intros done o H; simpl.
  - now rewrite app_nil_r.
  - replace (done ++ t :: r) with ((done ++ [t]) ++ r)
      by (now rewrite <- app_assoc).
    apply IH. now apply countSymbol_freqOf.
Qed.

Lemma symbolFrequency_freqOf (trades : list Trade) :
  freqOf trades (symbolFrequency trades).
Proof.
  apply (fold_countSymbol_freqOf trades [] empty).
  split; [constructor|]. split; intros; contradiction.
Qed.

Lemma symbolCount_pos_In (k : string) (trades : list Trade) :
  (0 < symbolCount k trades)%nat -> exists t, In t trades /\ symbol t = k.
Proof.
  unfold symbolCount. destruct (bySymbol k trades) as [|t r] eqn:E.
  - simpl. lia.
  - intros _. exists t. apply bySymbol_In. rewrite E. now left.
Qed.

(** The largest frequency is the largest number of trades on one symbol. *)
Lemma maxFreq_is_largest_count (trades : list Trade) :
  trades <> [] ->
  exists m, max_list (values (symbolFrequency trades)) = of_nat m
            /\ (exists k, symbolCount k trades = m)
            /\ forall k, (symbolCount k trades <= m)%nat.
Proof.
  intros Hne. destruct (symbolFrequency_freqOf trades) as [ND [Hk Hc]].
  set (o := symbolFrequency trades) in *.
  assert (Hv : forall v, In v (values o) ->
                         exists k, In (k, v) o).
  { intros v Hv. apply values_In in Hv. apply in_map_iff in Hv.
    destruct Hv as [[k c] [E Hin]]. simpl in E. subst c. now exists k. }
  destruct (max_list_of_counts (values o)) as [m [Em [Hm Hle]]].
  - destruct trades as [|t r]; [contradiction|].
    pose proof (Hk t (or_introl eq_refl)) as Ht.
    apply in_map_iff in Ht. destruct Ht as [[k c] [_ Hin]].
    intros E.
    assert (Hc' : In c (values o)).
    { apply (Permutation_in _ (Permutation_sym (values_perm o))).
      apply in_map_iff. now exists (k, c). }
    rewrite E in Hc'. contradiction.
  - intros v Hin'. destruct (Hv v Hin') as [k Hin].
    destruct (Hc _ _ Hin) as [-> _]. eauto.
  - exists m. split; trivial. split.
    + destruct (Hv _ Hm) as [k Hin]. destruct (Hc _ _ Hin) as [E _].
      apply of_nat_inj in E. now exists k.
    + intros k. destruct (symbolCount k trades) as [|c] eqn:E; [lia|].
      destruct (symbolCount_pos_In k trades) as [t [Ht Es]]; [lia|].
      pose proof (Hk t Ht) as Hkey. rewrite Es in Hkey.
      apply in_map_iff in Hkey. destruct Hkey as [[k' c'] [Ek Hin]].
      simpl in Ek. subst k'. destruct (Hc _ _ Hin) as [-> _].
      rewrite <- E. apply Hle.
      apply (Permutation_in _ (Permutation_sym (values_perm o))).
      apply in_map_iff. now exists (k, of_nat (symbolCount k trades)).
Qed.

Lemma concentration_percent (trades : list Trade) (m : nat) :
  max_list (values (symbolFrequency trades)) = of_nat m ->
  concentration trades = percent m (List.length trades).
Proof. intros E. unfold concentration, percent. now rewrite E. Qed.

(** X10. For trades with plain symbols, the Confirmation rule fires exactly
    when some symbol carries more than a quarter of all trades; its insight
    then has severity low and the share of the most traded symbol, in
    percent, as metric. *)
Theorem confirmation_fires_iff (trades : list Trade) :
  plainSymbols trades = true ->
  (confirmation trades <> []
   <-> exists k, (List.length trades < 4 * symbolCount k trades)%nat)
  /\ (forall i, In i (confirmation trades) ->
        i = insightOf "Confirmation Bias" low (concentration trades)).
Proof.
  intros _. split.
  - destruct trades as [|t0 r0] eqn:Et.
    + split; [intros H; now elim H | intros [k H]; simpl in H; lia].
    + rewrite <- Et.
      destruct (maxFreq_is_largest_count trades) as [m [Em [[k Ek] Hle]]];
        [rewrite Et; discriminate|].
      unfold confirmation. rewrite (concentration_percent trades m Em).
      change n25 with (of_Z 25).
      rewrite percent_gtb by (rewrite Et; simpl; lia).
      destruct (25 * Z.of_nat (List.length trades) <? 100 * Z.of_nat m)%Z
        eqn:B.
      * apply Z.ltb_lt in B. split; [|discriminate].
        intros _. exists k. rewrite Ek. lia.
      * apply Z.ltb_ge in B. split; [intros H; now elim H|].
        intros [k' H]. pose proof (Hle k'). lia.
  - unfold confirmation. destruct (concentration trades >? n25)%num;
      [|intros i []].
    intros i [<-|[]]. reflexivity.
Qed.

Lemma confirmation_fires_iff_witness :
  confirmation [buyOf "d1" "ACME" 1 1; buyOf "d2" "BETA" 1 1] <> [].
Proof.
  apply (proj1 (confirmation_fires_iff
                  [buyOf "d1" "ACME" 1 1; buyOf "d2" "BETA" 1 1] eq_refl)).
  exists "ACME". vm_compute. lia.
Defined.

(** ** The strategy rule in terms of counts *)

(** X11. The Strategy Effectiveness rule fires exactly when there is no
    profit event or the profit events are fewer than forty percent of all
    events, i.e. when [5 * wins < 2 * (wins + losses)]. *)
Theorem strategy_fires_iff_counts (ps ls : list num) :
  let p := List.length ps in
  let l := List.length ls in
  strategy (winRateOf ps ls) =
  if (p =? 0)%nat || (5 * p <? 2 * (p + l))%nat
  then [strategyInsight (sub n100 (winRateOf ps ls))]
  else [].
Proof.
  intros p l. unfold strategy, strategyInsight.
  replace (winRateOf ps ls <? n40)%num
    with ((p =? 0)%nat || (5 * p <? 2 * (p + l))%nat); [reflexivity|].
  rewrite winRateOf_cases. subst p l. destruct ps as [|x r]; [reflexivity|].
  set (p := List.length (x :: r)). set (l := List.length ls).
  assert (Hp : (0 < p)%nat) by (subst p; simpl; lia).
  change n40 with (of_Z 40). rewrite percent_ltb by lia.
  replace (p =? 0)%nat with false by (symmetry; apply Nat.eqb_neq; lia).
  cbn [orb]. apply Bool.eq_iff_eq_true. rewrite Nat.ltb_lt, Z.ltb_lt. lia.
Qed.

(** ** The keys are the distinct symbols *)

Lemma keys_count_distinct (keys : list string) (trades : list Trade) :
  NoDup keys ->
  (forall t, In t trades -> In (symbol t) keys) ->
  (forall k, In k keys -> In k (map symbol trades)) ->
  List.length keys = distinctSymbols trades.
Proof.
  intros ND H1 H2. unfold distinctSymbols. apply Nat.le_antisymm.
  - apply NoDup_incl_length; trivial.
    intros k Hk. apply nodup_In. now apply H2.
  - apply NoDup_incl_length; [apply NoDup_nodup|].
    intros k Hk. apply nodup_In in Hk. apply in_map_iff in Hk.
    destruct Hk as [t [<- Ht]]. now apply H1.
Qed.

Lemma groupTrade_keys (o o' : obj (list Trade)) (t : Trade) (k : string) :
  groupTrade o t = Some o' -> In k (map fst o') ->
  k = symbol t \/ In k (map fst o).
Proof.
  intros H Hk. apply in_map_iff in Hk. destruct Hk as [[k1 v1] [<- Hin]].
  unfold groupTrade in H.
  destruct (get o (symbol t)); inversion H; subst o'; simpl;
    now apply set_keys in Hin.
Qed.

Lemma groupBySymbol_keys (trades : list Trade) (o o' : obj (list Trade))
      (k : string) :
  groupBySymbol o trades = Some o' -> In k (map fst o') ->
  In k (map fst o) \/ In k (map symbol trades).
Proof.
  revert o. induction trades as [|t r IH]; intros o H Hk; simpl in H.
  - inversion H. subst. now left.
  - destruct (groupTrade o t) as [o1|] eqn:E; [|discriminate].
    destruct (IH o1 H Hk) as [K|K].
    + destruct (groupTrade_keys o o1 t k E K) as [->|K'].
      * right. now left.
      * now left.
    + right. now right.
Qed.

(** [Object.keys(symbolTrades).length] is the number of distinct symbols. *)
Lemma symbolTrades_key_count (trades : list Trade) (o : obj (list Trade)) :
  groupBySymbol empty trades = Some o ->
  key_count o = distinctSymbols trades.
Proof.
  intros H.
  destruct (groupBySymbol_groupsOf trades [] empty o) as [ND [K _]]; trivial.
  { split; [constructor|]. split; intros; contradiction. }
  unfold key_count. rewrite <- (length_map fst o).
  apply keys_count_distinct; trivial.
  intros k Hk. destruct (groupBySymbol_keys trades empty o k H Hk) as [[]|K'].
  exact K'.
Qed.

(** So is the number of values spread at line 121. *)
Lemma symbolFrequency_key_count (trades : list Trade) :
  key_count (symbolFrequency trades) = distinctSymbols trades.
Proof.
  destruct (symbolFrequency_freqOf trades) as [ND [K C]].
  unfold key_count. rewrite <- (length_map fst (symbolFrequency trades)).
  apply keys_count_distinct; trivial.
  intros k Hk. apply in_map_iff in Hk. destruct Hk as [[k1 c] [<- Hin]].
  destruct (C _ _ Hin) as [_ P].
  destruct (symbolCount_pos_In k1 trades P) as [t [Ht <-]].
  cbn [fst]. now apply in_map.
Qed.

Lemma analyzeTradesOn_Some (spreadLimit : nat) (getTime : string -> num)
      (trades : list Trade) (a : Analysis) :
  analyzeTradesOn spreadLimit getTime trades = Some a <->
  analyzeTrades getTime trades = Some a
  /\ (distinctSymbols trades <= spreadLimit)%nat.
Proof.
  unfold analyzeTradesOn. rewrite symbolFrequency_key_count.
  destruct (analyzeTrades getTime trades) as [a'|].
  - destruct (distinctSymbols trades <=? spreadLimit)%nat eqn:L.
    + apply Nat.leb_le in L. split; [intros H; now split | now intros [H _]].
    + apply Nat.leb_gt in L. split; [discriminate | intros [_ H]; lia].
  - split; [discriminate | now intros [H _]].
Qed.

(** ** When the engine returns *)

Lemma engine_defined (spreadLimit : nat) (getTime : string -> num)
      (trades : list Trade) :
  (exists a, analyzeTradesOn spreadLimit getTime trades = Some a)
  <-> plainSymbols trades = true
      /\ (distinctSymbols trades <= spreadLimit)%nat.
Proof.
  rewrite <- (analyzeTrades_defined getTime trades). split.
  - intros [a H]. apply analyzeTradesOn_Some in H. destruct H as [H L].
    split; [now exists a | exact L].
  - intros [[a H] L]. exists a. apply analyzeTradesOn_Some. now split.
Qed.

(** X1. On a host that accepts at most [spreadLimit] arguments in a call, the
    engine returns a result exactly when no trade carries a symbol that
    names a property inherited from [Object.prototype] and the trades have
    at most [spreadLimit] distinct symbols.  For an inherited name the
    grouping loop calls [push] on a value that has none and the function
    throws; beyond the limit the spread of the symbol frequencies into
    [Math.max] throws. *)
Theorem engine_returns_iff_plain_symbols_within_limit
        (spreadLimit : nat) (getTime : string -> num) (trades : list Trade) :
  (exists a, analyzeTradesOn spreadLimit getTime trades = Some a)
  <-> forallb (fun t => negb (is_inherited (symbol t))) trades = true
      /\ (distinctSymbols trades <= spreadLimit)%nat.
Proof.
  exact (engine_defined spreadLimit getTime trades).
Qed.

(** ** The overtrading rule on a run *)

Lemma filter_overtrading_lossAversion (avgP avgL : num) :
  filter isOvertradingInsight (lossAversion avgP avgL) = [].
Proof. unfold lossAversion. now destruct (_ >? _)%num. Qed.

Lemma filter_overtrading_overtrading (n keys : nat) :
  filter isOvertradingInsight (overtrading n keys) = overtrading n keys.
Proof. unfold overtrading. now destruct (_ >? _)%num. Qed.

Lemma filter_overtrading_recency (getTime : string -> num)
      (trades : list Trade) :
  filter isOvertradingInsight (recency getTime trades) = [].
Proof. unfold recency. now destruct (_ >? _)%num. Qed.

Lemma filter_overtrading_confirmation (trades : list Trade) :
  filter isOvertradingInsight (confirmation trades) = [].
Proof. unfold confirmation. now destruct (_ >? _)%num. Qed.

Lemma filter_overtrading_strategy (wr : num) :
  filter isOvertradingInsight (strategy wr) = [].
Proof. unfold strategy. now destruct (_ <? _)%num. Qed.

(** X9. On every run that returns, the Overtrading insight is emitted
    exactly when the number of trades exceeds eight times the number of
    distinct symbols of the input; its severity is medium and its metric is
    [100] as soon as there are at least ten trades per distinct symbol, and
    ten times the trades-per-symbol ratio below that. *)
Theorem overtrading_fires_iff_trades_per_distinct_symbol
        (spreadLimit : nat) (getTime : string -> num) (trades : list Trade)
        (a : Analysis) :
  analyzeTradesOn spreadLimit getTime trades = Some a ->
  let n := List.length trades in
  let d := distinctSymbols trades in
  filter isOvertradingInsight (insights a) =
  if (8 * d <? n)%nat then
    [ insightOf "Overtrading Bias" medium
        (if (10 * d <=? n)%nat then n100
         else mul (tradesPerSymbol n d) n10) ]
  else [].
Proof.
  intros H n d. apply analyzeTradesOn_Some in H. destruct H as [H _].
  rewrite analyzeTrades_realized in H.
  destruct (groupBySymbol empty trades) as [o|] eqn:G; [|discriminate].
  inversion H as [Ha]. cbn [insights].
  rewrite !filter_app, filter_overtrading_lossAversion,
    filter_overtrading_overtrading, filter_overtrading_recency,
    filter_overtrading_confirmation, filter_overtrading_strategy.
  cbn [app]. rewrite app_nil_r.
  rewrite (symbolTrades_key_count trades o G).
  apply overtrading_by_counts.
Qed.

Lemma overtrading_fires_iff_trades_per_distinct_symbol_witness :
  filter isOvertradingInsight
         [ insightOf "Overtrading Bias" medium (of_Z 90);
           insightOf "Confirmation Bias" low n100;
           insightOf "Strategy Effectiveness" high n100 ]
  = [ insightOf "Overtrading Bias" medium
        (mul (tradesPerSymbol 9 1) n10) ].
Proof.
  apply (overtrading_fires_iff_trades_per_distinct_symbol 1000 noDate
           (repeat (buyOf "d" "AAPL" 1 1) 9)
           {| insights := [ insightOf "Overtrading Bias" medium (of_Z 90);
                            insightOf "Confirmation Bias" low n100;
                            insightOf "Strategy Effectiveness" high n100 ];
              stats := mkStats 9 n0 n0 n0 n0 |}).
  struct_eval.
Defined.

(** ** How many insights, and in which order *)

Lemma key_count_pos (trades : list Trade) (o : obj (list Trade)) :
  groupBySymbol empty trades = Some o -> trades <> [] ->
  (0 < key_count o)%nat.
Proof.
  intros H Hne. destruct trades as [|t r]; [contradiction|].
  pose proof (groups_cover (t :: r) o t H (or_introl eq_refl)) as Hin.
  rewrite <- (length_map snd o : List.length (map snd o) = key_count o).
  rewrite <- (Permutation_length (values_perm o)).
  destruct (values o); [contradiction | simpl; lia].
Qed.

Lemma overtrading_needs_nine (n keys : nat) :
  (0 < keys)%nat -> overtrading n keys <> [] -> (9 <= n)%nat.
Proof.
  intros Hk. unfold overtrading. change n8 with (of_Z 8).
  rewrite tradesPerSymbol_gtb by exact Hk.
  destruct (8 * Z.of_nat keys <? Z.of_nat n)%Z eqn:B; [|intros H; now elim H].
  apply Z.ltb_lt in B. lia.
Qed.

Lemma rule_lengths (getTime : string -> num) (trades : list Trade)
      (avgP avgL wr : num) (keys : nat) :
  (List.length (lossAversion avgP avgL) <= 1)%nat
  /\ (List.length (overtrading (List.length trades) keys) <= 1)%nat
  /\ (List.length (recency getTime trades) <= 1)%nat
  /\ (List.length (confirmation trades) <= 1)%nat
  /\ (List.length (strategy wr) <= 1)%nat.
Proof.
  unfold lossAversion, overtrading, recency, confirmation, strategy.
  repeat split;
    match goal with |- context [if ?c then _ else _] => destruct c end;
    simpl; lia.
Qed.

(** X12. The insights of a run come in the fixed order of the rules, at
    most one per rule, and there are never more than four of them: the
    Recency rule only fires on lists of one or two trades, where the
    Overtrading rule, which needs more than eight trades per symbol, cannot
    fire, so these two insights never appear together. *)
Theorem at_most_four_insights_in_rule_order (getTime : string -> num)
        (trades : list Trade) (a : Analysis) :
  analyzeTrades getTime trades = Some a ->
  isSubsequence (map type (insights a)) ruleOrder = true
  /\ (List.length (insights a) <= 4)%nat
  /\ ~ (In "Overtrading Bias" (map type (insights a))
        /\ In "Recency Bias" (map type (insights a))).
Proof.
  rewrite analyzeTrades_realized.
  destruct (groupBySymbol empty trades) as [o|] eqn:G; [|discriminate].
  intros H. inversion H; subst a; clear H. cbn [insights].
  set (ps := fst (realize (values o))). set (ls := snd (realize (values o))).
  assert (X : overtrading (List.length trades) (key_count o) = []
              \/ recency getTime trades = []).
  { destruct trades as [|t r] eqn:Et; [now right|]. rewrite <- Et in *.
    assert (Hk : (0 < key_count o)%nat)
      by (apply (key_count_pos trades); [exact G | rewrite Et; discriminate]).
    destruct (overtrading (List.length trades) (key_count o)) eqn:O;
      [now left|].
    right. assert (N : (9 <= List.length trades)%nat).
    { apply (overtrading_needs_nine _ (key_count o) Hk). rewrite O.
      discriminate. }
    rewrite recency_characterisation.
    destruct (List.length trades) as [|[|[|n]]]; try lia. reflexivity. }
  split; [|split].
  - unfold lossAversion, overtrading, recency, confirmation, strategy.
    repeat match goal with
           | |- context [if ?c then _ else _] => destruct c
           end; reflexivity.
  - destruct (rule_lengths getTime trades (average ps) (average ls)
                (winRateOf ps ls) (key_count o)) as [L1 [L2 [L3 [L4 L5]]]].
    rewrite !length_app.
    destruct X as [X|X]; rewrite X in *; simpl in *; lia.
  - revert X.
    unfold lossAversion, overtrading, recency, confirmation, strategy.
    repeat match goal with
           | |- context [if ?c then _ else _] => destruct c
           end;
      intros [X|X] [H1 H2]; try discriminate X;
      simpl in H1, H2; intuition discriminate.
Qed.

Lemma at_most_four_insights_in_rule_order_witness :
  (List.length [ insightOf "Loss Aversion Bias" high n100;
                 insightOf "Confirmation Bias" low n100;
                 insightOf "Strategy Effectiveness" high n100 ] <= 4)%nat.
Proof.
  apply (at_most_four_insights_in_rule_order noDate
           [buyOf "d1" "ACME" 10 10; sellOf "d2" "ACME" 5 5;
            sellOf "d3" "ACME" 5 8]
           {| insights := [ insightOf "Loss Aversion Bias" high n100;
                            insightOf "Confirmation Bias" low n100;
                            insightOf "Strategy Effectiveness" high n100 ];
              stats := {| totalTrades := 3; winRate := n0; avgProfit := n0;
                          avgLoss := Fin (Q2Qc (35 # 2));
                          profitFactor := n0 |} |}).
  struct_eval.
Defined.

(** ** Lower bounds of the metrics *)

Lemma gtb_min_cap (x : num) (c : Z) :
  (c < 100)%Z -> (x >? of_Z c)%num = true ->
  (min x n100 >? of_Z c)%num = true.
Proof.
  intros Hc Hx.
  assert (H100 : (n100 >? of_Z c)%num = true).
  { unfold gtb, n100, of_Z. apply ltb_Fin. qc2q. rewrite <- Zlt_Qlt. lia. }
  destruct x as [|s|a]; [discriminate| |]; unfold min.
  - destruct (n100 <? Inf s)%num; trivial.
  - destruct (n100 <? Fin a)%num; trivial.
Qed.

Lemma Qc_scale_gt (x : Qc) (c m : Z) :
  (0 < m)%Z ->
  (Q2Qc (inject_Z c) < x)%Qc ->
  (Q2Qc (inject_Z (c * m)) < x * Q2Qc (inject_Z m))%Qc.
Proof.
  intros Hm H. qc2q. rewrite inject_Z_mult.
  apply Qmult_lt_compat_r; trivial.
  change 0%Q with (inject_Z 0). rewrite <- Zlt_Qlt. lia.
Qed.

Lemma overtrading_metric_above_80 (n keys : nat) (i : BiasInsight) :
  In i (overtrading n keys) -> (metric i >? of_Z 80)%num = true.
Proof.
  unfold overtrading.
  destruct (tradesPerSymbol n keys >? n8)%num eqn:E; [|intros []].
  intros [<-|[]]. cbn [metric]. apply gtb_min_cap; [lia|].
  destruct (tradesPerSymbol n keys) as [|s|x]; [discriminate| |].
  - destruct s; [reflexivity | discriminate].
  - unfold n10, of_Z, mul, gtb. apply ltb_Fin.
    apply (Qc_scale_gt x 8 10); [lia|]. now apply ltb_Fin.
Qed.

Lemma Qc_ratio_scale_gt (a q : Qc) :
  (Q2Qc 0 < q)%Qc -> (q * Q2Qc (3 # 2) < a)%Qc ->
  (Q2Qc (inject_Z 75) < a / q * Q2Qc (inject_Z 50))%Qc.
Proof.
  intros Hq H. qc2q.
  assert (R : (3 # 2 < this a / this q)%Q).
  { apply Q_lt_ratio; trivial. lra. }
  unfold Qdiv in R. change (inject_Z 75) with 75%Q.
  change (inject_Z 50) with 50%Q. lra.
Qed.

Lemma lossAversion_metric_above_75 (avgP avgL : num) (i : BiasInsight) :
  avgP = n0 \/ positive avgP ->
  In i (lossAversion avgP avgL) -> (metric i >? of_Z 75)%num = true.
Proof.
  intros HP. unfold lossAversion.
  destruct (avgL >? mul avgP one_and_half)%num eqn:E; [|intros []].
  intros [<-|[]]. cbn [metric]. apply gtb_min_cap; [lia|].
  destruct HP as [->|HP].
  - rewrite mul_n0_one_and_half in E.
    now rewrite (div_positive_zero avgL E).
  - apply positive_cases in HP. destruct HP as [->|[q [-> Hq]]].
    + destruct avgL as [|[|]|a]; discriminate.
    + pose proof (is_zero_false q (Qc_zero_lt_neq q Hq)) as Zq.
      pose proof (is_neg_false q (Qclt_le_weak _ _ Hq)) as Nq.
      destruct avgL as [|s|a]; [discriminate| |].
      * destruct s; [|discriminate]. unfold div. rewrite Nq. reflexivity.
      * unfold div. rewrite Zq. unfold n50, of_Z, mul, gtb.
        apply ltb_Fin. apply Qc_ratio_scale_gt; trivial.
        unfold one_and_half, mul, gtb in E. now apply ltb_Fin in E.
Qed.

Lemma strategy_metric_above_60 (ps ls : list num) (i : BiasInsight) :
  In i (strategy (winRateOf ps ls)) -> (metric i >? of_Z 60)%num = true.
Proof.
  destruct (winRateOf_range ps ls) as [w [-> [H0 _]]].
  unfold strategy. destruct (Fin w <? n40)%num eqn:E; [|intros []].
  intros [<-|[]]. cbn [metric]. unfold n100, n40, of_Z, sub, neg, add, gtb in *.
  apply ltb_Fin. apply ltb_Fin in E. qc2q.
  change (inject_Z 60) with 60%Q. change (inject_Z 100) with 100%Q.
  change (inject_Z 40) with 40%Q in E. lra.
Qed.

Lemma gtb_geb (x y : num) : (x >? y)%num = true -> (x >=? y)%num = true.
Proof.
  unfold gtb, geb, leb. intros H.
  destruct y as [|[|]|b], x as [|[|]|a]; try discriminate; try reflexivity.
  apply Bool.negb_true_iff.
  destruct (Fin a <? Fin b)%num eqn:E; trivial.
  apply ltb_Fin in H. apply ltb_Fin in E.
  exfalso. apply (Qclt_not_le _ _ H). now apply Qclt_le_weak.
Qed.

(** X13. Every emitted metric also has a floor that its rule's trigger
    implies: at least [75] for Loss Aversion (the quotient and the product
    of the rule are rounded, and [75] itself is reached), above [80] for
    Overtrading, exactly [100] for Recency, above [25] for Confirmation and
    above [60] for Strategy Effectiveness; so no insight is ever emitted
    with a metric of [25] or less. *)
Theorem metric_lower_bounds (getTime : string -> num) (trades : list Trade)
        (a : Analysis) (i : BiasInsight) :
  analyzeTrades getTime trades = Some a -> In i (insights a) ->
  (type i = "Loss Aversion Bias" -> (metric i >=? of_Z 75)%num = true)
  /\ (type i = "Overtrading Bias" -> (metric i >? of_Z 80)%num = true)
  /\ (type i = "Recency Bias" -> metric i = n100)
  /\ (type i = "Confirmation Bias" -> (metric i >? of_Z 25)%num = true)
  /\ (type i = "Strategy Effectiveness" -> (metric i >? of_Z 60)%num = true)
  /\ (metric i >? of_Z 25)%num = true.
Proof.
  rewrite analyzeTrades_realized.
  destruct (groupBySymbol empty trades) as [o|] eqn:G; [|discriminate].
  intros H. inversion H; subst a; clear H. cbn [insights].
  assert (P : Forall positive (fst (realize (values o)))).
  { apply (realized_profits_positive trades _ (snd (realize (values o)))).
    unfold realized. rewrite G. now destruct (realize (values o)). }
  assert (W : forall c d : Z, (d <= c)%Z -> (metric i >? of_Z c)%num = true ->
                              (metric i >? of_Z d)%num = true).
  { intros c d Hcd. unfold gtb, of_Z. destruct (metric i) as [|s|x]; trivial.
    intros L. apply ltb_Fin in L. apply ltb_Fin. qc2q.
    assert (inject_Z d <= inject_Z c)%Q by (rewrite <- Zle_Qle; lia). lra. }
  rewrite !in_app_iff. intros [H|[H|[H|[H|H]]]].
  - pose proof (lossAversion_metric_above_75 _ _ i
                  (average_profit_cases _ P) H) as B.
    unfold lossAversion in H. destruct (_ >? _)%num in H; [|destruct H].
    destruct H as [<-|[]]. cbn [type metric] in *.
    repeat split; try discriminate; trivial;
      [intros _; now apply gtb_geb | now apply (W 75%Z)].
  - pose proof (overtrading_metric_above_80 _ _ i H) as B.
    unfold overtrading in H. destruct (_ >? _)%num in H; [|destruct H].
    destruct H as [<-|[]]. cbn [type metric] in *.
    repeat split; try discriminate; trivial. now apply (W 80%Z).
  - rewrite recency_characterisation in H.
    destruct (_ || _) in H; [|destruct H].
    destruct H as [<-|[]]. cbn [type metric].
    repeat split; try discriminate; trivial.
  - unfold confirmation in H.
    destruct (concentration trades >? n25)%num eqn:B in H; [|destruct H].
    destruct H as [<-|[]]. cbn [type metric].
    repeat split; try discriminate; trivial.
  - pose proof (strategy_metric_above_60 _ _ i H) as B.
    unfold strategy in H. destruct (_ <? _)%num in H; [|destruct H].
    destruct H as [<-|[]]. cbn [type metric] in *.
    repeat split; try discriminate; trivial. now apply (W 60%Z).
Qed.

Lemma metric_lower_bounds_witness :
  (metric (strategyInsight n100) >? of_Z 25)%num = true.
Proof.
  apply (metric_lower_bounds noDate []
           {| insights := [strategyInsight n100];
              stats := mkStats 0 n0 n0 n0 n0 |} (strategyInsight n100)).
  - struct_eval.
  - left. reflexivity.
Defined.

(** * Properties of the upload handler *)

Section Upload.

Variable getTime : string -> num.
Variable parseFloat : string -> num.
Variable spreadLimit : nat.

Lemma distinctRowSymbols_toTrade (rows : list App.Row) :
  distinctSymbols (map (App.toTrade parseFloat) rows)
  = App.distinctRowSymbols rows.
Proof.
  unfold distinctSymbols, App.distinctRowSymbols. now rewrite map_map.
Qed.

Lemma plainRows_toTrade (rows : list App.Row) :
  plainSymbols (map (App.toTrade parseFloat) rows) = App.plainRows rows.
Proof.
  unfold plainSymbols, App.plainRows.
  induction rows as [|r rs IH]; simpl; trivial. now rewrite IH.
Qed.

Lemma handle_consistent (v : App.View) (e : App.Event) :
  App.consistent v ->
  App.consistent (App.handle getTime parseFloat spreadLimit v e).
Proof.
  intros [H1 H2]. destruct e as [|rows|]; simpl.
  - split; simpl; tauto.
  - unfold App.complete.
    destruct (analyzeTradesOn spreadLimit getTime
                (map (App.toTrade parseFloat) rows)).
    + split; simpl; [split; discriminate | discriminate].
    + split; simpl; [exact H1 | discriminate].
  - split; simpl; [exact H1 | discriminate].
Qed.

Lemma fold_handle_consistent (es : list App.Event) (v : App.View) :
  App.consistent v ->
  App.consistent (fold_left (App.handle getTime parseFloat spreadLimit) es v).
Proof.
  revert v. induction es as [|e r IH]; intros v H; simpl; trivial.
  apply IH. now apply handle_consistent.
Qed.

Lemma isLoading_after (es : list App.Event) :
  App.isLoading (App.run getTime parseFloat spreadLimit es)
  = App.endsWithSelect es.
Proof.
  destruct es as [|e r _] using rev_ind; [reflexivity|].
  unfold App.run, App.endsWithSelect.
  rewrite fold_left_app, rev_unit. cbn [fold_left].
  destruct e as [|rows|]; [reflexivity| |reflexivity].
  cbn [App.handle]. unfold App.complete.
  now destruct (analyzeTradesOn spreadLimit getTime
                  (map (App.toTrade parseFloat) rows)).
Qed.

(** X15. After any sequence of file selections, completed parses and
    failed parses, the insights and the stats are both set or both unset,
    and the page shows exactly one thing: nothing but the loading state
    while [isLoading] is set, and otherwise either the results or the
    invitation to upload, never both and never neither.  [isLoading] is set
    exactly when the latest event is a file selection: the callback of any
    parse clears it, also when the parse of a later selection is still
    under way, and the page then shows the results of the parse that came
    back. *)
Theorem page_shows_exactly_one_view (es : list App.Event) :
  let v := App.run getTime parseFloat spreadLimit es in
  (App.insightsState v = None <-> App.statsState v = None)
  /\ App.isLoading v = App.endsWithSelect es
  /\ (if App.isLoading v
      then App.showsResults v = false /\ App.showsPlaceholder v = false
      else xorb (App.showsResults v) (App.showsPlaceholder v) = true).
Proof.
  intros v.
  assert (C : App.consistent v).
  { apply fold_handle_consistent. split; simpl; [tauto | discriminate]. }
  destruct C as [H1 H2]. split; [exact H1|].
  split; [apply isLoading_after|].
  unfold App.showsResults, App.showsPlaceholder.
  destruct (App.isLoading v) eqn:L.
  - rewrite (H2 eq_refl). now split.
  - destruct (App.insightsState v) as [i|] eqn:I.
    + destruct (App.statsState v) eqn:S; [reflexivity|].
      destruct H1 as [_ H1]. discriminate (H1 eq_refl).
    + reflexivity.
Qed.

(** X16. An upload ends the loading state in every case.  When the parse
    completes with rows whose symbols are plain names and the rows have no
    more distinct symbols than the host accepts arguments in a call, the
    results of the analysis of exactly these rows are shown (every row
    counts as a trade) and nothing is alerted.  When some symbol names an
    inherited property, or the rows have more distinct symbols than that,
    the analysis throws, the results stay cleared, the invitation to upload
    is shown and the analysis alert is raised.  When the parse fails, the
    same happens with the parse alert. *)
Theorem upload_outcome (v : App.View) (rows : list App.Row) :
  let done :=
    App.complete getTime parseFloat spreadLimit rows (App.select v) in
  let failed := App.parseFailed (App.select v) in
  App.isLoading done = false
  /\ App.isLoading failed = false
  /\ (App.plainRows rows = true ->
      (App.distinctRowSymbols rows <= spreadLimit)%nat ->
        App.showsResults done = true
        /\ App.showsPlaceholder done = false
        /\ App.effects done = App.effects v
        /\ option_map totalTrades (App.statsState done)
           = Some (List.length rows)
        /\ exists a,
             analyzeTradesOn spreadLimit getTime
               (map (App.toTrade parseFloat) rows) = Some a
             /\ App.insightsState done = Some (insights a)
             /\ App.statsState done = Some (stats a))
  /\ (App.plainRows rows = false
      \/ (spreadLimit < App.distinctRowSymbols rows)%nat ->
        App.showsResults done = false
        /\ App.showsPlaceholder done = true
        /\ App.effects done =
           App.effects v
           ++ [ App.ConsoleError "Error analyzing trades:";
                App.Alert
                  "Error analyzing trades. Please check your CSV format." ])
  /\ App.showsResults failed = false
  /\ App.showsPlaceholder failed = true
  /\ App.effects failed =
     App.effects v
     ++ [ App.ConsoleError "Error parsing CSV:";
          App.Alert "Error parsing CSV file. Please check the format." ].
Proof.
  intros done failed.
  set (trades := map (App.toTrade parseFloat) rows).
  pose proof (engine_defined spreadLimit getTime trades) as D.
  unfold trades in D at 2 3.
  rewrite plainRows_toTrade, distinctRowSymbols_toTrade in D.
  assert (L : App.isLoading done = false).
  { subst done. unfold App.complete. fold trades.
    now destruct (analyzeTradesOn spreadLimit getTime trades). }
  split; [exact L|]. split; [reflexivity|]. split; [|split].
  - intros P Q. destruct (proj2 D (conj P Q)) as [a Ha].
    subst done. unfold App.complete. fold trades. rewrite Ha.
    unfold App.showsResults, App.showsPlaceholder. simpl.
    repeat split.
    + apply analyzeTradesOn_Some in Ha. destruct Ha as [Ha _].
      pose proof (analyzeTrades_stats getTime trades) as S.
      rewrite Ha in S. simpl in S.
      destruct (realized trades) as [pl|]; [|discriminate].
      simpl in S. inversion S as [E]. rewrite E. simpl.
      unfold trades. now rewrite length_map.
    + exists a. now repeat split.
  - intros P. subst done. unfold App.complete. fold trades.
    destruct (analyzeTradesOn spreadLimit getTime trades) as [a|] eqn:Ha.
    + destruct (proj1 D (ex_intro _ a eq_refl)) as [P1 P2].
      destruct P as [P|P]; [congruence | lia].
    + now repeat split.
  - now repeat split.
Qed.

End Upload.

Lemma upload_outcome_witness :
  App.showsResults
    (App.complete noDate (fun _ => n10) 1000
       [App.mkRow "2024-01-02" "ACME" "buy" "10" "10"]
       (App.select App.initial)) = true.
Proof.
  exact (proj1 (proj1 (proj2 (proj2
           (upload_outcome noDate (fun _ => n10) 1000 App.initial
              [App.mkRow "2024-01-02" "ACME" "buy" "10" "10"])))
           eq_refl ltac:(vm_compute; lia))).
Defined.

(** * Properties of the display *)

(** X17. The badge of an insight card depends on the severity name only
    through three cases, anything else (other letter case included) getting
    the variant ["outline"]; every insight the engine emits gets one of the
    three named variants, fixed by its rule: ["destructive"] for Loss
    Aversion and Strategy Effectiveness, ["default"] for Overtrading and
    Recency, ["secondary"] for Confirmation. *)
Theorem badge_of_each_rule (getTime : string -> num) (trades : list Trade)
        (a : Analysis) (i : BiasInsight) :
  analyzeTrades getTime trades = Some a -> In i (insights a) ->
  (forall s, Display.getSeverityBadgeVariant s = "outline"
             <-> s <> "high" /\ s <> "medium" /\ s <> "low")
  /\ Display.badgeOf i <> "outline"
  /\ (type i = "Loss Aversion Bias" \/ type i = "Strategy Effectiveness" ->
        Display.badgeOf i = "destructive")
  /\ (type i = "Overtrading Bias" \/ type i = "Recency Bias" ->
        Display.badgeOf i = "default")
  /\ (type i = "Confirmation Bias" -> Display.badgeOf i = "secondary").
Proof.
  intros Ha Hi. split.
  { intros s. unfold Display.getSeverityBadgeVariant.
    destruct (String.eqb s "high") eqn:E1;
      [apply String.eqb_eq in E1; subst; split;
       [discriminate | intros [H _]; now elim H]|].
    destruct (String.eqb s "medium") eqn:E2;
      [apply String.eqb_eq in E2; subst; split;
       [discriminate | intros [_ [H _]]; now elim H]|].
    destruct (String.eqb s "low") eqn:E3;
      [apply String.eqb_eq in E3; subst; split;
       [discriminate | intros [_ [_ H]]; now elim H]|].
    apply String.eqb_neq in E1, E2, E3. tauto. }
  revert Ha Hi. rewrite analyzeTrades_realized.
  destruct (groupBySymbol empty trades) as [o|] eqn:G; [|discriminate].
  intros H. inversion H; subst a; clear H. cbn [insights].
  unfold lossAversion, overtrading, recency, confirmation, strategy.
  rewrite !in_app_iff.
  intros [H|[H|[H|[H|H]]]];
    match type of H with
    | In _ (if ?c then _ else _) => destruct c; [|destruct H]
    end;
    destruct H as [<-|[]]; unfold Display.badgeOf; cbn;
    repeat split; try discriminate; intros [E|E]; try discriminate E;
    reflexivity.
Qed.

Lemma badge_of_each_rule_witness :
  Display.badgeOf (strategyInsight n100) <> "outline".
Proof.
  apply (badge_of_each_rule noDate []
           {| insights := [strategyInsight n100];
              stats := mkStats 0 n0 n0 n0 n0 |} (strategyInsight n100)).
  - struct_eval.
  - left. reflexivity.
Defined.

(** * Two more facts about the rules *)

Lemma positive_above_scaled (x : num) (q : Qc) :
  (Q2Qc 0 < q)%Qc -> (x >? mul (Fin q) one_and_half)%num = true -> positive x.
Proof.
  intros Hq H. apply positive_cases.
  unfold one_and_half, mul, gtb in H.
  destruct x as [|s|a]; [discriminate| |].
  - destruct s; [now left | discriminate].
  - right. exists a. split; trivial. apply ltb_Fin in H.
    qc2q. lra.
Qed.

(** X18. The Loss Aversion rule never fires on a run without a loss event:
    when its insight is emitted, the losses list is not empty and the
    average loss is strictly positive. *)
Theorem loss_aversion_needs_a_loss (trades : list Trade) (ps ls : list num) :
  realized trades = Some (ps, ls) ->
  lossAversion (average ps) (average ls) <> [] ->
  ls <> [] /\ positive (average ls).
Proof.
  intros R F.
  assert (P : positive (average ls)).
  { unfold lossAversion in F.
    destruct (average ls >? mul (average ps) one_and_half)%num eqn:E;
      [|now elim F].
    destruct (average_profit_cases ps (realized_profits_positive _ _ _ R))
      as [Z|Pp].
    - rewrite Z, mul_n0_one_and_half in E. exact E.
    - apply positive_cases in Pp. destruct Pp as [Pp|[q [Pp Hq]]];
        rewrite Pp in E.
      + destruct (average ls) as [|[|]|a]; discriminate.
      + now apply (positive_above_scaled _ q). }
  split; trivial. intros ->. discriminate P.
Qed.

Lemma loss_aversion_needs_a_loss_witness :
  [of_Z 25; of_Z 10] <> [] /\ positive (average [of_Z 25; of_Z 10]).
Proof.
  apply (loss_aversion_needs_a_loss
           [buyOf "d1" "ACME" 10 10; sellOf "d2" "ACME" 5 5;
            sellOf "d3" "ACME" 5 8] [] [of_Z 25; of_Z 10]).
  - vm_compute. reflexivity.
  - discriminate.
Defined.

Lemma replayTrade_from_flat (ps ls : list num) (t : Trade) :
  profits (replayTrade (startOfSymbol ps ls) t) = ps
  /\ losses (replayTrade (startOfSymbol ps ls) t) = ls.
Proof.
  destruct (isBuy t) eqn:Hb.
  - rewrite replayTrade_buy by exact Hb. now split.
  - destruct (isSell t) eqn:Hs.
    + rewrite replayTrade_sell by exact Hs. now split.
    + rewrite replayTrade_other by trivial. now split.
Qed.

(** X19. A list of a single trade always gives the same analysis, whatever
    its action, quantity and price (a plain symbol provided): no profit or
    loss event, stats [1, 0, 0, 0, 0], and exactly the Recency,
    Confirmation and Strategy Effectiveness insights, each with metric
    [100]. *)
Theorem single_trade_analysis (getTime : string -> num) (t : Trade) :
  is_inherited (symbol t) = false ->
  analyzeTrades getTime [t] =
  Some {| insights := [ insightOf "Recency Bias" medium n100;
                        insightOf "Confirmation Bias" low n100;
                        insightOf "Strategy Effectiveness" high n100 ];
          stats := {| totalTrades := 1; winRate := n0; avgProfit := n0;
                      avgLoss := n0; profitFactor := n0 |} |}.
Proof.
  intros Hs. rewrite analyzeTrades_realized.
  assert (G : groupBySymbol empty [t] = Some [(symbol t, [t])]).
  { cbn [groupBySymbol]. unfold groupTrade, get. cbn [get_own empty].
    now rewrite Hs. }
  rewrite G. cbv zeta. rewrite values_single.
  assert (R : realize [[t]] = ([], [])).
  { unfold realize, replaySymbol. cbn [fold_left fst snd].
    change (replayFrom (startOfSymbol [] []) [t])
      with (replayTrade (startOfSymbol [] []) t).
    destruct (replayTrade_from_flat [] [] t) as [-> ->]. reflexivity. }
  rewrite R. cbn [fst snd].
  assert (C : confirmation [t] = [insightOf "Confirmation Bias" low n100]).
  { unfold confirmation, concentration, symbolFrequency.
    cbn [fold_left]. unfold countSymbol, get. cbn [get_own empty set].
    rewrite Hs, values_single. struct_eval. }
  rewrite C, (recency_characterisation getTime [t]).
  struct_eval.
Qed.

Lemma single_trade_analysis_witness :
  option_map stats
    (analyzeTrades noDate [mkTrade "2024-01-02" "ACME" "sell" NaN PosInf])
  = Some {| totalTrades := 1; winRate := n0; avgProfit := n0;
            avgLoss := n0; profitFactor := n0 |}.
Proof.
  rewrite (single_trade_analysis noDate
             (mkTrade "2024-01-02" "ACME" "sell" NaN PosInf) eq_refl).
  reflexivity.
Defined.
